(** * HKX file analyzer (analyze_hkx.py): header sniffing, signature scan,
    Skyrim SE compatibility rules and batch summary.

    Python values are embedded as follows:
    - [bytes] objects are lists of [byte];
    - [str] objects are lists of Unicode code points ([N]), so that the
      replacement character U+FFFD produced by
      [decode("ascii", errors="replace")] is one character;
    - unsigned 32-bit header fields are [N], offsets and lengths are [Z];
    - dictionaries are [gmap]s;
    - the object under construction is threaded explicitly. *)

From Stdlib Require Import ZArith NArith List Lia.
From Stdlib Require Import Strings.Byte Strings.Ascii Strings.String.
From stdpp Require Import base decidable option list list_numbers numbers strings gmap fin_maps.

Local Open Scope Z_scope.

(** ** Python primitives *)

Module Py.

Abbreviation bytes := (list byte).
Abbreviation str := (list N).

#[global] Instance byte_eq_dec : EqDecision byte := Byte.byte_eq_dec.

(** A [str] literal (all literals of the program are ASCII). *)
Definition lit (s : string) : str := N_of_ascii <$> list_ascii_of_string s.

(** A [bytes] literal written with printable characters. *)
Definition blit (s : string) : bytes := list_byte_of_string s.

(** [len(x)] *)
Definition len {A} (l : list A) : Z := Z.of_nat (length l).

(** [x[a:b]] for indices [0 <= a], [0 <= b] (the program never slices
    with a negative index). *)
Definition slice {A} (l : list A) (a b : Z) : list A :=
  take (Z.to_nat b - Z.to_nat a)%nat (drop (Z.to_nat a) l).

(** [l.startswith(sub)] *)
Fixpoint starts_with {A} `{EqDecision A} (sub l : list A) : bool :=
  match sub, l with
  | [], _ => true
  | _ :: _, [] => false
  | x :: sub', y :: l' => bool_decide (x = y) && starts_with sub' l'
  end.

(** [sub in l], for [bytes] and for [str]. *)
Fixpoint contains {A} `{EqDecision A} (sub l : list A) : bool :=
  starts_with sub l ||
  match l with
  | [] => false
  | _ :: l' => contains sub l'
  end.

(** Lowest index of an occurrence of [sub] in [l], counted from [i];
    [-1] when there is none. *)
Fixpoint find_from {A} `{EqDecision A} (sub l : list A) (i : Z) : Z :=
  if starts_with sub l then i
  else match l with
       | [] => -1
       | _ :: l' => find_from sub l' (i + 1)
       end.

(** [data.find(sub)] and [data.find(sub, start, end)], for a non-empty
    [sub] and [0 <= start]: the occurrence lies within
    [data[start:end]]. *)
Definition find (sub data : bytes) : Z := find_from sub data 0.
Definition find_in (sub data : bytes) (start end_ : Z) : Z :=
  find_from sub (slice data start end_) start.

(** [bs.decode("ascii", errors="replace")] *)
Definition decode_ascii_replace (bs : bytes) : str :=
  (λ c, let n := Byte.to_N c in if (n <? 128)%N then n else 0xFFFD%N) <$> bs.

(** [bs.decode("ascii")] on a [bs] made of ASCII bytes only (on other
    input Python raises; the program decodes its own signature
    constants only, see [signatures_ascii]). *)
Definition decode_ascii (bs : bytes) : str := Byte.to_N <$> bs.
Definition is_ascii (bs : bytes) : bool :=
  forallb (λ c, (Byte.to_N c <? 128)%N) bs.

(** Little-endian value of a byte string. *)
Fixpoint le_uint (bs : bytes) : N :=
  match bs with
  | [] => 0%N
  | c :: bs' => (Byte.to_N c + 256 * le_uint bs')%N
  end.

(** [struct.unpack_from("<I", data, offset)[0]]; [None] stands for
    [struct.error] (the buffer does not hold 4 bytes at [offset]). *)
Definition unpack_from_I (data : bytes) (offset : Z) : option N :=
  if bool_decide (offset + 4 <= len data)
  then Some (le_uint (slice data offset (offset + 4)))
  else None.

(** [range(0, stop, step)] for [0 < step]. *)
Definition range0 (stop step : Z) : list Z :=
  (λ k : nat, Z.of_nat k * step) <$> seq 0 (Z.to_nat ((stop + step - 1) / step)).

(** The format specification [08X]: upper-case hexadecimal, padded
    with zeros to at least 8 digits. *)
Definition hex_digit (d : N) : N :=
  if (d <? 10)%N then (48 + d)%N else (55 + d)%N.
Fixpoint hex_upper (fuel : nat) (v : N) (acc : str) : str :=
  match fuel with
  | O => acc
  | S fuel' =>
      let acc' := hex_digit (v mod 16) :: acc in
      if (v / 16 =? 0)%N then acc' else hex_upper fuel' (v / 16) acc'
  end.
Definition format_X (v : N) : str := hex_upper (S (N.size_nat v)) v [].
Definition format_08X (v : N) : str :=
  let s := format_X v in replicate (8 - length s)%nat 48%N ++ s.

End Py.
Import Py.

(** ** Constants of the analyzer *)

(** Havok HKX magic bytes. *)
Definition HKX_MAGIC_LE : bytes := [x57; xe0; xe0; x57; x10; xc0; xc0; x10].
Definition HKX_MAGIC_BE : bytes := [x57; xe0; xe0; x57; x10; xc0; xc0; x10].

(** Known Havok SDK versions used by games. *)
Definition HAVOK_VERSIONS : gmap N str :=
  <[0x0B000000%N := lit "hk2014 (Skyrim SE)"]>
  (<[0x0D000000%N := lit "hk2016"]>
  (<[0x0E000000%N := lit "hk2018 (Elden Ring / DS3)"]>
  (<[0x10000000%N := lit "hk2020"]> ∅))).

(** Elden Ring specific Havok signature patterns, in scan order. *)
Definition ER_CLASSNAME_SIGNATURES : list bytes :=
  [ blit "hkaAnimationContainer";
    blit "hkaSplineCompressedAnimation";
    blit "hkaInterleavedUncompressedAnimation";
    blit "hkaAnimationBinding";
    blit "hkaSkeleton";
    blit "hkaSkeletonMapper";
    blit "hkRootLevelContainer" ].

(** ** The record built for one file *)

Record HKXInfo := mkHKXInfo {
  filepath : str;
  filename : str;
  filesize : N;
  valid : bool;
  error : option str;
  endianness : str;
  havok_version_raw : N;
  havok_version_str : str;
  user_tag : N;
  num_sections : N;
  content_version_string : str;
  detected_classes : list str;
  has_animation : bool;
  has_skeleton : bool;
  has_binding : bool;
  compression_type : str
}.

(** Attribute assignments [self.f = v]. *)
Definition set_valid (v : bool) (s : HKXInfo) : HKXInfo :=
  mkHKXInfo (filepath s) (filename s) (filesize s) v (error s) (endianness s)
    (havok_version_raw s) (havok_version_str s) (user_tag s) (num_sections s)
    (content_version_string s) (detected_classes s) (has_animation s)
    (has_skeleton s) (has_binding s) (compression_type s).
Definition set_error (v : option str) (s : HKXInfo) : HKXInfo :=
  mkHKXInfo (filepath s) (filename s) (filesize s) (valid s) v (endianness s)
    (havok_version_raw s) (havok_version_str s) (user_tag s) (num_sections s)
    (content_version_string s) (detected_classes s) (has_animation s)
    (has_skeleton s) (has_binding s) (compression_type s).
Definition set_endianness (v : str) (s : HKXInfo) : HKXInfo :=
  mkHKXInfo (filepath s) (filename s) (filesize s) (valid s) (error s) v
    (havok_version_raw s) (havok_version_str s) (user_tag s) (num_sections s)
    (content_version_string s) (detected_classes s) (has_animation s)
    (has_skeleton s) (has_binding s) (compression_type s).
Definition set_havok_version_raw (v : N) (s : HKXInfo) : HKXInfo :=
  mkHKXInfo (filepath s) (filename s) (filesize s) (valid s) (error s) (endianness s)
    v (havok_version_str s) (user_tag s) (num_sections s)
    (content_version_string s) (detected_classes s) (has_animation s)
    (has_skeleton s) (has_binding s) (compression_type s).
Definition set_havok_version_str (v : str) (s : HKXInfo) : HKXInfo :=
  mkHKXInfo (filepath s) (filename s) (filesize s) (valid s) (error s) (endianness s)
    (havok_version_raw s) v (user_tag s) (num_sections s)
    (content_version_string s) (detected_classes s) (has_animation s)
    (has_skeleton s) (has_binding s) (compression_type s).
Definition set_user_tag (v : N) (s : HKXInfo) : HKXInfo :=
  mkHKXInfo (filepath s) (filename s) (filesize s) (valid s) (error s) (endianness s)
    (havok_version_raw s) (havok_version_str s) v (num_sections s)
    (content_version_string s) (detected_classes s) (has_animation s)
    (has_skeleton s) (has_binding s) (compression_type s).
Definition set_num_sections (v : N) (s : HKXInfo) : HKXInfo :=
  mkHKXInfo (filepath s) (filename s) (filesize s) (valid s) (error s) (endianness s)
    (havok_version_raw s) (havok_version_str s) (user_tag s) v
    (content_version_string s) (detected_classes s) (has_animation s)
    (has_skeleton s) (has_binding s) (compression_type s).
Definition set_content_version_string (v : str) (s : HKXInfo) : HKXInfo :=
  mkHKXInfo (filepath s) (filename s) (filesize s) (valid s) (error s) (endianness s)
    (havok_version_raw s) (havok_version_str s) (user_tag s) (num_sections s)
    v (detected_classes s) (has_animation s)
    (has_skeleton s) (has_binding s) (compression_type s).
Definition set_detected_classes (v : list str) (s : HKXInfo) : HKXInfo :=
  mkHKXInfo (filepath s) (filename s) (filesize s) (valid s) (error s) (endianness s)
    (havok_version_raw s) (havok_version_str s) (user_tag s) (num_sections s)
    (content_version_string s) v (has_animation s)
    (has_skeleton s) (has_binding s) (compression_type s).
Definition set_has_animation (v : bool) (s : HKXInfo) : HKXInfo :=
  mkHKXInfo (filepath s) (filename s) (filesize s) (valid s) (error s) (endianness s)
    (havok_version_raw s) (havok_version_str s) (user_tag s) (num_sections s)
    (content_version_string s) (detected_classes s) v
    (has_skeleton s) (has_binding s) (compression_type s).
Definition set_has_skeleton (v : bool) (s : HKXInfo) : HKXInfo :=
  mkHKXInfo (filepath s) (filename s) (filesize s) (valid s) (error s) (endianness s)
    (havok_version_raw s) (havok_version_str s) (user_tag s) (num_sections s)
    (content_version_string s) (detected_classes s) (has_animation s)
    v (has_binding s) (compression_type s).
Definition set_has_binding (v : bool) (s : HKXInfo) : HKXInfo :=
  mkHKXInfo (filepath s) (filename s) (filesize s) (valid s) (error s) (endianness s)
    (havok_version_raw s) (havok_version_str s) (user_tag s) (num_sections s)
    (content_version_string s) (detected_classes s) (has_animation s)
    (has_skeleton s) v (compression_type s).
Definition set_compression_type (v : str) (s : HKXInfo) : HKXInfo :=
  mkHKXInfo (filepath s) (filename s) (filesize s) (valid s) (error s) (endianness s)
    (havok_version_raw s) (havok_version_str s) (user_tag s) (num_sections s)
    (content_version_string s) (detected_classes s) (has_animation s)
    (has_skeleton s) (has_binding s) v.

(** The attribute values [__init__] assigns before it calls [_parse]. *)
Definition HKXInfo_defaults (path name : str) (size : N) : HKXInfo :=
  {| filepath := path; filename := name; filesize := size;
     valid := false; error := None;
     endianness := lit "unknown";
     havok_version_raw := 0%N;
     havok_version_str := lit "unknown";
     user_tag := 0%N;
     num_sections := 0%N;
     content_version_string := [];
     detected_classes := [];
     has_animation := false; has_skeleton := false; has_binding := false;
     compression_type := lit "unknown" |}.

(** ** The [try] block: assignments survive a [struct.error] *)

(** A computation on the object under construction that either returns a
    value or raises [struct.error] ([None]); the attributes assigned
    before the exception stay assigned. *)
Definition Try (A : Type) : Type := HKXInfo → HKXInfo * option A.

#[global] Instance Try_ret : MRet Try := λ A a s, (s, Some a).
#[global] Instance Try_bind : MBind Try := λ A B k m s,
  match m s with
  | (s', Some a) => k a s'
  | (s', None) => (s', None)
  end.

Definition assign (f : HKXInfo → HKXInfo) : Try unit := λ s, (f s, Some tt).
Definition read_attr {A} (f : HKXInfo → A) : Try A := λ s, (s, Some (f s)).
Definition unpack (data : bytes) (offset : Z) : Try N := λ s, (s, unpack_from_I data offset).

(** [try: body except struct.error: pass] *)
Definition try_except_pass (body : Try unit) (self : HKXInfo) : HKXInfo := fst (body self).

(** ** HKXInfo._scan_classes *)

(** The body of the loop for a signature that occurs in the data. *)
Definition scan_classes_found (class_name : str) (self : HKXInfo) : HKXInfo :=
  let self := set_detected_classes (detected_classes self ++ [class_name]) self in
  if contains (lit "Animation") class_name && negb (contains (lit "Container") class_name) then
    let self := set_has_animation true self in
    if contains (lit "Spline") class_name then set_compression_type (lit "spline") self
    else if contains (lit "Interleaved") class_name then set_compression_type (lit "interleaved") self
    else self
  else if contains (lit "Skeleton") class_name && negb (contains (lit "Mapper") class_name) then
    set_has_skeleton true self
  else if contains (lit "Binding") class_name then
    set_has_binding true self
  else self.

(** One iteration of the loop over the signatures. *)
Definition scan_classes_step (data : bytes) (self : HKXInfo) (sig : bytes) : HKXInfo :=
  if contains sig data then scan_classes_found (decode_ascii sig) self else self.

Definition _scan_classes (self : HKXInfo) (data : bytes) : HKXInfo :=
  foldl (scan_classes_step data) self ER_CLASSNAME_SIGNATURES.

(** ** HKXInfo._scan_version_string *)

Fixpoint scan_version_patterns (data : bytes) (patterns : list bytes) (self : HKXInfo) : HKXInfo :=
  match patterns with
  | [] => self
  | pattern :: rest =>
      let idx := find pattern data in
      if bool_decide (0 <= idx) then
        let end_ := find_in [x00] data idx (idx + 64) in
        if bool_decide (idx < end_) then
          set_content_version_string (decode_ascii_replace (slice data idx end_)) self
        else scan_version_patterns data rest self
      else scan_version_patterns data rest self
  end.

Definition _scan_version_string (self : HKXInfo) (data : bytes) : HKXInfo :=
  scan_version_patterns data [blit "hk_"; blit "Havok-"; blit "hkVersionUtil"] self.

(** ** HKXInfo._parse_alternative_header *)

(** The search for the magic at the offsets of [range(0, min(256, len(data) - 8), 4)]. *)
Fixpoint scan_magic_offsets (data : bytes) (offsets : list Z) (self : HKXInfo) : HKXInfo :=
  match offsets with
  | [] => self
  | offset :: rest =>
      if bool_decide (slice data offset (offset + 8) = HKX_MAGIC_LE)
      then set_valid true self
      else scan_magic_offsets data rest self
  end.

(** Truth value of a list. *)
Definition nonempty {A} (l : list A) : bool :=
  match l with [] => false | _ :: _ => true end.

Definition _parse_alternative_header (self : HKXInfo) (data : bytes) : HKXInfo :=
  if bool_decide (slice data 0 3 = blit "hk_") || bool_decide (slice data 0 3 = blit "HK_") then
    let self := set_valid true self in
    let end_ := find_in [x00] data 0 64 in
    let self :=
      if bool_decide (0 < end_) then
        let self := set_content_version_string (decode_ascii_replace (slice data 0 end_)) self in
        if contains (lit "2018") (content_version_string self) then
          set_havok_version_str (lit "hk2018 (Elden Ring / DS3)") self
        else if contains (lit "2014") (content_version_string self) then
          set_havok_version_str (lit "hk2014 (Skyrim SE)") self
        else if contains (lit "2016") (content_version_string self) then
          set_havok_version_str (lit "hk2016") self
        else self
      else self in
    _scan_classes self data
  else
    let self := scan_magic_offsets data (range0 (Z.min 256 (len data - 8)) 4) self in
    let self :=
      if negb (valid self) then
        let self := _scan_classes self data in
        if nonempty (detected_classes self) then
          set_havok_version_str (lit "unknown (headerless, classes detected)")
            (set_valid true self)
        else self
      else self in
    if negb (valid self) then
      set_error (Some (lit "No valid HKX header or Havok class signatures found")) self
    else self.

(** ** HKXInfo._parse *)

(** The loop over the alternative version offsets. *)
Fixpoint probe_version (data : bytes) (offsets : list Z) : Try unit :=
  match offsets with
  | [] => mret tt
  | offset :: rest =>
      if bool_decide (offset + 4 <= len data) then
        v ← unpack data offset;
        match HAVOK_VERSIONS !! v with
        | Some label =>
            assign (set_havok_version_raw v);;
            assign (set_havok_version_str label)
        | None => probe_version data rest
        end
      else probe_version data rest
  end.

(** The loop over the section-count offsets. *)
Fixpoint probe_sections (data : bytes) (offsets : list Z) : Try unit :=
  match offsets with
  | [] => mret tt
  | offset :: rest =>
      if bool_decide (offset + 4 <= len data) then
        v ← unpack data offset;
        if bool_decide (0 < v)%N && bool_decide (v < 100)%N
        then assign (set_num_sections v)
        else probe_sections data rest
      else probe_sections data rest
  end.

(** The body of the [try] statement. *)
Definition parse_header_fields (data : bytes) : Try unit :=
  tag ← unpack data 0x08;
  assign (set_user_tag tag);;
  let endian_byte :=
    if bool_decide (0x11 < len data) then from_option Byte.to_N 0%N (data !! 0x11%nat) else 0%N in
  assign (set_endianness (if bool_decide (endian_byte = 0%N) then lit "big" else lit "little"));;
  version_candidate ← unpack data 0x0C;
  match HAVOK_VERSIONS !! version_candidate with
  | Some label =>
      assign (set_havok_version_raw version_candidate);;
      assign (set_havok_version_str label)
  | None =>
      probe_version data [0x10; 0x14; 0x28; 0x2C];;
      raw ← read_attr havok_version_raw;
      if bool_decide (raw = 0%N) then
        assign (set_havok_version_str
                  (lit "unknown (0x" ++ format_08X version_candidate ++ lit ")"))
      else mret tt
  end;;
  probe_sections data [0x14; 0x18].

(** The outcome of [open] and [f.read]: an exception with its message,
    or the bytes read. *)
Inductive read_result :=
  | ReadError (e : str)
  | ReadData (data : bytes).

(** [f.read(min(self.filesize, 65536))] on a file holding [content]. *)
Definition read_prefix (size : N) (content : bytes) : bytes :=
  take (N.to_nat (N.min size 65536)) content.

Definition _parse (self : HKXInfo) (r : read_result) : HKXInfo :=
  match r with
  | ReadError e => set_error (Some (lit "Cannot read file: " ++ e)) self
  | ReadData data =>
      if bool_decide (len data < 64) then
        set_error (Some (lit "File too small to be a valid HKX")) self
      else
        let magic := slice data 0 8 in
        if bool_decide (magic ≠ HKX_MAGIC_LE) then
          _parse_alternative_header self data
        else
          let self := set_valid true self in
          let self := try_except_pass (parse_header_fields data) self in
          let self := _scan_version_string self data in
          _scan_classes self data
  end.

(** [HKXInfo(filepath)], given the name and size of the file and the
    outcome of reading it. *)
Definition HKXInfo_init (path name : str) (size : N) (r : read_result) : HKXInfo :=
  _parse (HKXInfo_defaults path name size) r.

(** ** check_skyrim_compatibility *)

Definition ISSUE_INVALID : str := lit "INVALID: File is not a valid HKX file".
Definition ISSUE_VERSION : str :=
  lit "VERSION: Elden Ring uses Havok 2018, Skyrim SE uses Havok 2014. " ++
  lit "Conversion required via hkxcmd or HavokBehaviorPostProcess.".
Definition ISSUE_COMPRESSION : str :=
  lit "COMPRESSION: Spline-compressed animation data. " ++
  lit "Soulstruct or custom decompressor needed before retargeting.".
Definition ISSUE_ENDIAN : str :=
  lit "ENDIAN: Big-endian format detected. Skyrim SE uses little-endian. " ++
  lit "Byte-swap conversion required.".
Definition ISSUE_OK : str :=
  lit "OK: No obvious compatibility issues detected (further testing needed)".

Definition check_skyrim_compatibility (info : HKXInfo) : list str :=
  let issues : list str := [] in
  if negb (valid info) then
    issues ++ [ISSUE_INVALID]
  else
    let issues :=
      if contains (lit "2018") (havok_version_str info)
         || contains (lit "Elden Ring") (havok_version_str info)
      then issues ++ [ISSUE_VERSION] else issues in
    let issues :=
      if bool_decide (compression_type info = lit "spline")
      then issues ++ [ISSUE_COMPRESSION] else issues in
    let issues :=
      if bool_decide (endianness info = lit "big")
      then issues ++ [ISSUE_ENDIAN] else issues in
    let issues :=
      if negb (nonempty issues) then issues ++ [ISSUE_OK] else issues in
    issues.

(** ** print_results: the summary *)

(** [d[k] = d.get(k, 0) + 1] *)
Definition count_up (k : str) (d : gmap str nat) : gmap str nat :=
  <[k := (default 0 (d !! k) + 1)%nat]> d.

Record Summary := mkSummary {
  total : nat;
  valid_count : nat;
  with_anim : nat;
  with_skel : nat;
  with_binding : nat;
  compression_counts : gmap str nat;
  version_counts : gmap str nat;
  total_size : N
}.

(** [sum(1 for r in results if p(r))] *)
Definition count_if (p : HKXInfo → bool) (results : list HKXInfo) : nat :=
  sum_list ((λ _, 1%nat) <$> filter (λ r, p r = true) results).

(** The values computed by [print_results] after the per-file output;
    [None] when the function returns early on an empty list. *)
Definition print_results_summary (results : list HKXInfo) : option Summary :=
  if negb (nonempty results) then None
  else
    Some {|
      total := length results;
      valid_count := count_if valid results;
      with_anim := count_if has_animation results;
      with_skel := count_if has_skeleton results;
      with_binding := count_if has_binding results;
      compression_counts :=
        foldl (λ counts r, count_up (compression_type r) counts) ∅ results;
      version_counts :=
        foldl (λ counts r,
                 if valid r then count_up (havok_version_str r) counts else counts)
              ∅ results;
      total_size := foldr (λ r acc, (filesize r + acc)%N) 0%N results
    |}.

(** Sum of the values of a frequency table. *)
Definition table_sum (d : gmap str nat) : nat :=
  map_fold (λ _ v acc, (v + acc)%nat) 0%nat d.

(** ** The version label as the specification words it *)

(** The first of the alternative offsets whose little-endian 32-bit
    value is a key of the version table, with that key's label. *)
Definition first_known_version (data : bytes) (offsets : list Z) : option str :=
  head (omap (λ offset, HAVOK_VERSIONS !! le_uint (slice data offset (offset + 4))) offsets).

Definition spec_version_label (data : bytes) : str :=
  let candidate := le_uint (slice data 0x0C 0x10) in
  match HAVOK_VERSIONS !! candidate with
  | Some label => label
  | None =>
      match first_known_version data [0x10; 0x14; 0x28; 0x2C] with
      | Some label => label
      | None => lit "unknown (0x" ++ format_08X candidate ++ lit ")"
      end
  end.
(** ** The endianness label as the specification words it *)

(** [big] if the byte at offset 0x11 is zero, [little] otherwise. *)
Definition endian_label (data : bytes) : str :=
  match data !! 0x11%nat with
  | Some c => if bool_decide (Byte.to_N c = 0%N) then lit "big" else lit "little"
  | None => lit "big"
  end.

(** ** The header attributes, which the signature scan leaves alone *)

Definition same_header (s s' : HKXInfo) : Prop :=
  filepath s' = filepath s ∧ filename s' = filename s ∧ filesize s' = filesize s ∧
  valid s' = valid s ∧ error s' = error s ∧ endianness s' = endianness s ∧
  havok_version_raw s' = havok_version_raw s ∧
  havok_version_str s' = havok_version_str s ∧
  user_tag s' = user_tag s ∧ num_sections s' = num_sections s ∧
  content_version_string s' = content_version_string s.

(** ** analyze_path *)

(** How a call ends: with a value, or with an exception that nothing in
    the called code catches (here the [OSError] of a file-system call). *)
Inductive outcome (A : Type) : Type :=
  | Returns (a : A)
  | Raises.
Arguments Returns {A} a.
Arguments Raises {A}.

(** A path as [HKXInfo(filepath)] sees it: the path, its name, the
    outcome of [filepath.stat()] (the size, or an exception: a dangling
    symbolic link, a file removed meanwhile, a directory that may not be
    searched) and the outcome of opening and reading it, which is taken
    to complete: it gives the bytes or raises. *)
Record hkx_file := mk_hkx_file {
  file_path : str;
  file_name : str;
  file_stat : outcome N;
  file_read : read_result
}.

(** [HKXInfo(filepath)]. [__init__] calls [filepath.stat()] outside any
    [try], so its exception leaves the constructor; everything after it
    is [_parse], which catches what opening and reading raise. *)
Definition HKXInfo_of (f : hkx_file) : outcome HKXInfo :=
  match file_stat f with
  | Returns size => Returns (HKXInfo_init (file_path f) (file_name f) size (file_read f))
  | Raises => Raises
  end.

(** What the target path is: a file, a directory with the sorted list of
    the [*.hkx] paths below it, neither, or a path for which [is_file()],
    [is_dir()] or the enumeration raises. *)
Inductive target :=
  | TargetFile (f : hkx_file)
  | TargetDir (hkx_files : list hkx_file)
  | TargetMissing
  | TargetUnreadable.

(** The loop over the files of a directory; an exception of
    [HKXInfo(hkx_file)] ends it and leaves the function. *)
Fixpoint analyze_loop (results : list HKXInfo) (hkx_files : list hkx_file)
    : outcome (list HKXInfo) :=
  match hkx_files with
  | [] => Returns results
  | hkx_file :: rest =>
      match HKXInfo_of hkx_file with
      | Returns info => analyze_loop (results ++ [info]) rest
      | Raises => Raises
      end
  end.

Definition analyze_path (target_path : target) : outcome (list HKXInfo) :=
  let results : list HKXInfo := [] in
  match target_path with
  | TargetFile f =>
      match HKXInfo_of f with
      | Returns info => Returns (results ++ [info])
      | Raises => Raises
      end
  | TargetDir hkx_files =>
      if negb (nonempty hkx_files) then Returns results
      else analyze_loop results hkx_files
  | TargetMissing => Returns results
  | TargetUnreadable => Raises
  end.

(** ** main with --compat-only, and convert_hkx.verify_converted_hkx *)

(** [[i for i in issues if not i.startswith("OK")]] *)
Definition problem_issues (issues : list str) : list str :=
  filter (λ i, starts_with (lit "OK") i = false) issues.

(** [any(not i.startswith("OK") for i in issues)] *)
Definition has_problems (issues : list str) : bool :=
  existsb (λ i, negb (starts_with (lit "OK") i)) issues.


(** The loop of [verify_converted_hkx] over the files, with its two
    counters; an exception of [HKXInfo(hkx_file)] ends it and leaves the
    function. *)
Fixpoint verify_loop (ok_count issue_count : nat) (hkx_files : list hkx_file)
    : outcome (nat * nat) :=
  match hkx_files with
  | [] => Returns (ok_count, issue_count)
  | hkx_file :: rest =>
      match HKXInfo_of hkx_file with
      | Returns info =>
          let issues := check_skyrim_compatibility info in
          if has_problems issues
          then verify_loop ok_count (issue_count + 1) rest
          else verify_loop (ok_count + 1) issue_count rest
      | Raises => Raises
      end
  end.

(** [verify_converted_hkx(hkx_dir)], given the outcome of
    [sorted(hkx_dir.rglob("*.hkx"))]: the two counters it reports,
    [(ok_count, issue_count)], or [None] when it returns early because
    no HKX file was found, or an exception. *)
Definition verify_converted_hkx (listing : outcome (list hkx_file))
    : outcome (option (nat * nat)) :=
  match listing with
  | Raises => Raises
  | Returns hkx_files =>
      if negb (nonempty hkx_files) then Returns None
      else
        match verify_loop 0 0 hkx_files with
        | Returns counts => Returns (Some counts)
        | Raises => Raises
        end
  end.

(** ** Descriptions used in the statements *)

(** Some offset of [range(0, min(256, len(data) - 8), 4)] holds the magic. *)
Definition magic_at_aligned_offset (data : bytes) : Prop :=
  Exists (λ offset, slice data offset (offset + 8) = HKX_MAGIC_LE)
         (range0 (Z.min 256 (len data - 8)) 4).

(** Some signature of the list occurs in the data. *)
Definition some_signature (data : bytes) : Prop :=
  Exists (λ sig, contains sig data = true) ER_CLASSNAME_SIGNATURES.

(** The data starts with the textual marker. *)
Definition has_marker (data : bytes) : Prop :=
  slice data 0 3 = blit "hk_" ∨ slice data 0 3 = blit "HK_".

(** Number of records of a batch that satisfy [P]. *)
Definition occurrences (P : HKXInfo → Prop) `{∀ r, Decision (P r)}
    (results : list HKXInfo) : nat :=
  length (filter P results).

(** The version label the marker branch chooses for a content version
    string, [prev] being the label before. *)
Definition marker_version_label (cvs prev : str) : str :=
  if contains (lit "2018") cvs then lit "hk2018 (Elden Ring / DS3)"
  else if contains (lit "2014") cvs then lit "hk2014 (Skyrim SE)"
  else if contains (lit "2016") cvs then lit "hk2016"
  else prev.

(** The little-endian 32-bit value at an offset. *)
Definition u32_at (data : bytes) (offset : Z) : N :=
  le_uint (slice data offset (offset + 4)).

(** The first of the values at 0x14 and 0x18 that lies strictly between
    0 and 100, or 0. *)
Definition plausible_sections (data : bytes) : N :=
  if bool_decide (0 < u32_at data 0x14)%N && bool_decide (u32_at data 0x14 < 100)%N
  then u32_at data 0x14
  else if bool_decide (0 < u32_at data 0x18)%N && bool_decide (u32_at data 0x18 < 100)%N
  then u32_at data 0x18
  else 0%N.

(** The names of the signatures that occur in the data, in list order. *)
Definition signatures_in (data : bytes) : list str :=
  decode_ascii <$> filter (λ sig, contains sig data = true) ER_CLASSNAME_SIGNATURES.

(** The files a target stands for. *)
Definition target_files (target_path : target) : list hkx_file :=
  match target_path with
  | TargetFile f => [f]
  | TargetDir hkx_files => hkx_files
  | TargetMissing => []
  | TargetUnreadable => []
  end.

(** [infos] are the records of [files], one per file and in order; in
    particular [stat()] succeeded on every file. *)
Definition records_of (files : list hkx_file) (infos : list HKXInfo) : Prop :=
  Forall2 (λ f info, HKXInfo_of f = Returns info) files infos.

(** [stat()] raises on one of the files. *)
Definition some_stat_fails (files : list hkx_file) : Prop :=
  Exists (λ f, file_stat f = Raises) files.

(** * Properties *)

Example range0_56 : range0 (Z.min 256 (64 - 8)) 4 = [0;4;8;12;16;20;24;28;32;36;40;44;48;52].
Proof. reflexivity. Qed.
Example range0_neg : range0 (-3) 4 = [].
Proof. reflexivity. Qed.
Example format_08X_ex : format_08X 0x0E0000AB = lit "0E0000AB".
Proof. vm_compute. reflexivity. Qed.
Example find_in_ex : find_in [x00] (blit "hk_2018" ++ [x00; x00]) 0 64 = 7.
Proof. vm_compute. reflexivity. Qed.
Example find_in_none : find_in [x00] (blit "hk_2018") 0 64 = -1.
Proof. vm_compute. reflexivity. Qed.
Example contains_ex : contains (lit "2018") (lit "hk_2018.1.0-r1") = true.
Proof. vm_compute. reflexivity. Qed.

(** ** Sanity of the constants *)

Lemma signatures_ascii : Forall (λ sig, is_ascii sig = true) ER_CLASSNAME_SIGNATURES.
Proof. repeat constructor. Qed.

Lemma HAVOK_VERSIONS_zero : HAVOK_VERSIONS !! 0%N = None.
Proof. reflexivity. Qed.

Lemma HAVOK_VERSIONS_key_nonzero v label :
  HAVOK_VERSIONS !! v = Some label → v ≠ 0%N.
Proof. intros H ->. rewrite HAVOK_VERSIONS_zero in H. discriminate. Qed.

Lemma read_prefix_length size content : len (read_prefix size content) <= 65536.
Proof. unfold read_prefix, len. rewrite length_take. lia. Qed.

(** ** The signature scan *)

Section ScanClasses.

Variable data : bytes.

Local Abbreviation step := (scan_classes_step data).

Lemma scan_classes_found_header c s : same_header s (scan_classes_found c s).
Proof.
  unfold scan_classes_found, same_header.
  repeat case_match; simpl; repeat split; reflexivity.
Qed.

Lemma scan_classes_found_nonempty c s : detected_classes (scan_classes_found c s) ≠ [].
Proof.
  assert (Hne : detected_classes s ++ [c] ≠ []) by (destruct (detected_classes s); discriminate).
  unfold scan_classes_found. repeat case_match; simpl; exact Hne.
Qed.

Lemma scan_classes_found_grows c s :
  ∃ more, detected_classes (scan_classes_found c s) = detected_classes s ++ more ∧ more ≠ [].
Proof.
  exists [c]. split; [|discriminate].
  unfold scan_classes_found. repeat case_match; reflexivity.
Qed.

Lemma same_header_refl s : same_header s s.
Proof. unfold same_header. repeat split; reflexivity. Qed.

Lemma same_header_trans s1 s2 s3 : same_header s1 s2 → same_header s2 s3 → same_header s1 s3.
Proof. unfold same_header. intros H1 H2. intuition congruence. Qed.

Lemma scan_loop_header sigs s : same_header s (foldl step s sigs).
Proof.
  revert s. induction sigs as [|sig sigs IH]; intros s; simpl.
  - apply same_header_refl.
  - eapply same_header_trans; [|apply IH].
    unfold scan_classes_step. case_match; [apply scan_classes_found_header | apply same_header_refl].
Qed.

(** The list of detected classes only grows during the scan. *)
Lemma scan_loop_prefix sigs s :
  ∃ more, detected_classes (foldl step s sigs) = detected_classes s ++ more.
Proof.
  revert s. induction sigs as [|sig sigs IH]; intros s; simpl.
  - exists []. by rewrite app_nil_r.
  - destruct (IH (step s sig)) as [more Hm]. rewrite Hm. unfold scan_classes_step.
    case_match; [|by eexists].
    destruct (scan_classes_found_grows (decode_ascii sig) s) as (m1 & -> & _).
    exists (m1 ++ more). by rewrite app_assoc.
Qed.

(** A scan that ends with no detected class has changed nothing. *)
Lemma scan_loop_empty sigs s :
  detected_classes (foldl step s sigs) = [] → foldl step s sigs = s.
Proof.
  revert s. induction sigs as [|sig sigs IH]; intros s; simpl; [done|].
  intros Hnil. pose proof (IH _ Hnil) as Heq. rewrite Heq in Hnil |- *.
  unfold scan_classes_step in Hnil |- *. case_match; [|done].
  by apply scan_classes_found_nonempty in Hnil.
Qed.

End ScanClasses.

Lemma scan_classes_header s data : same_header s (_scan_classes s data).
Proof. apply scan_loop_header. Qed.

Lemma scan_classes_empty s data :
  detected_classes (_scan_classes s data) = [] → _scan_classes s data = s.
Proof. apply scan_loop_empty. Qed.

(** ** The standard header: the [try] block on at least 64 bytes *)

Lemma Try_bind_run {A B} (m : Try A) (k : A → Try B) s :
  (m ≫= k) s = match m s with
               | (s', Some a) => k a s'
               | (s', None) => (s', None)
               end.
Proof. reflexivity. Qed.

Lemma first_known_version_cons data offset rest :
  first_known_version data (offset :: rest) =
  match HAVOK_VERSIONS !! le_uint (slice data offset (offset + 4)) with
  | Some label => Some label
  | None => first_known_version data rest
  end.
Proof. unfold first_known_version. simpl. by destruct (HAVOK_VERSIONS !! _). Qed.

Lemma endian_label_eq (data : bytes) :
  (if bool_decide (from_option Byte.to_N 0%N (data !! 0x11%nat) = 0%N)
   then lit "big" else lit "little") = endian_label data.
Proof. unfold endian_label. by destruct (data !! _). Qed.

Section StandardHeader.

Variable data : bytes.
Hypothesis Hlen : 64 <= len data.

Lemma unpack_ok offset s :
  offset + 4 <= 64 →
  unpack data offset s = (s, Some (le_uint (slice data offset (offset + 4)))).
Proof.
  intros Hoff. unfold unpack, unpack_from_I.
  rewrite bool_decide_true by lia. reflexivity.
Qed.

(** The version probe never raises; it stops at the first offset whose
    value is a key of the table. *)
Lemma probe_version_run offsets s :
  Forall (λ offset, offset + 4 <= 64) offsets →
  ∃ s', probe_version data offsets s = (s', Some tt) ∧
        match first_known_version data offsets with
        | Some label =>
            ∃ v, v ≠ 0%N ∧ s' = set_havok_version_str label (set_havok_version_raw v s)
        | None => s' = s
        end.
Proof.
  induction 1 as [|offset rest Hoff _ IH]; [by exists s|].
  rewrite first_known_version_cons. simpl.
  rewrite bool_decide_true by lia.
  rewrite Try_bind_run, unpack_ok by done.
  destruct (HAVOK_VERSIONS !! _) as [label|] eqn:Hlook; [|exact IH].
  eexists. split; [reflexivity|].
  eexists. split; [by eapply HAVOK_VERSIONS_key_nonzero|reflexivity].
Qed.

(** The section-count probe never raises and assigns [num_sections] at most. *)
Lemma probe_sections_run offsets s :
  Forall (λ offset, offset + 4 <= 64) offsets →
  ∃ n, probe_sections data offsets s = (set_num_sections n s, Some tt).
Proof.
  induction 1 as [|offset rest Hoff _ IH].
  - exists (num_sections s). destruct s. reflexivity.
  - simpl. rewrite bool_decide_true by lia.
    rewrite Try_bind_run, unpack_ok by done.
    case_match; [by eexists | exact IH].
Qed.

(** The whole [try] block completes without [struct.error]; it assigns
    the four header attributes and nothing else. *)
Lemma parse_header_fields_run s :
  havok_version_raw s = 0%N →
  ∃ tag raw n,
    parse_header_fields data s =
      (set_num_sections n
         (set_havok_version_str (spec_version_label data)
            (set_havok_version_raw raw
               (set_endianness (endian_label data) (set_user_tag tag s)))),
       Some tt).
Proof.
  intros Hraw. unfold parse_header_fields.
  rewrite Try_bind_run, unpack_ok by done.
  rewrite Try_bind_run. unfold assign at 1.
  rewrite (bool_decide_true (17 < len data)) by lia.
  rewrite Try_bind_run. unfold assign at 1.
  rewrite Try_bind_run, unpack_ok by done.
  change (12 + 4) with 16.
  rewrite Try_bind_run.
  unfold spec_version_label.
  rewrite endian_label_eq.
  set (candidate := le_uint (slice data 12 16)).
  set (s1 := set_endianness _ _).
  assert (Hraw1 : havok_version_raw s1 = 0%N) by exact Hraw.
  destruct (HAVOK_VERSIONS !! candidate) as [label|] eqn:Hlook.
  - rewrite Try_bind_run. unfold assign at 1 2.
    destruct (probe_sections_run [0x14; 0x18] (set_havok_version_str label (set_havok_version_raw candidate s1)))
      as [n ->]; [repeat constructor; lia|].
    by eexists _, _, _.
  - destruct (probe_version_run [0x10; 0x14; 0x28; 0x2C] s1) as (s2 & Hrun & Hs2);
      [repeat constructor; lia|].
    rewrite Try_bind_run, Hrun, Try_bind_run. unfold read_attr.
    destruct (first_known_version data _) as [label|].
    + destruct Hs2 as (v & Hv & ->).
      rewrite bool_decide_false by exact Hv.
      unfold mret, Try_ret.
      destruct (probe_sections_run [0x14; 0x18] (set_havok_version_str label (set_havok_version_raw v s1)))
        as [n ->]; [repeat constructor; lia|].
      by eexists _, _, _.
    + subst s2. rewrite bool_decide_true by done.
      unfold assign at 1.
      match goal with |- context [probe_sections data _ ?s] =>
        destruct (probe_sections_run [0x14; 0x18] s) as [n ->]; [repeat constructor; lia|]
      end.
      exists (le_uint (slice data 8 (8 + 4))), 0%N, n.
      subst s1. destruct s. simpl in *. by subst.
Qed.

End StandardHeader.

(** ** The version-string scan and the standard path as a whole *)

Lemma scan_version_patterns_shape data patterns s :
  ∃ v, scan_version_patterns data patterns s = set_content_version_string v s.
Proof.
  induction patterns as [|pattern rest IH]; simpl.
  - exists (content_version_string s). by destruct s.
  - repeat case_match; try exact IH. by eexists.
Qed.

Lemma parse_standard path name size data :
  64 <= len data → slice data 0 8 = HKX_MAGIC_LE →
  ∃ tag raw n cvs,
    HKXInfo_init path name size (ReadData data) =
    _scan_classes
      (set_content_version_string cvs
         (set_num_sections n
            (set_havok_version_str (spec_version_label data)
               (set_havok_version_raw raw
                  (set_endianness (endian_label data)
                     (set_user_tag tag
                        (set_valid true (HKXInfo_defaults path name size))))))))
      data.
Proof.
  intros Hlen Hmagic. unfold HKXInfo_init, _parse.
  rewrite bool_decide_false by lia.
  rewrite bool_decide_false by (by intros []).
  unfold try_except_pass, _scan_version_string.
  destruct (parse_header_fields_run data Hlen (set_valid true (HKXInfo_defaults path name size)))
    as (tag & raw & n & ->); [done|].
  match goal with |- context [scan_version_patterns data ?ps ?s] =>
    destruct (scan_version_patterns_shape data ps s) as [cvs ->]
  end.
  by exists tag, raw, n, cvs.
Qed.

Lemma parse_standard_valid path name size data :
  64 <= len data → slice data 0 8 = HKX_MAGIC_LE →
  valid (HKXInfo_init path name size (ReadData data)) = true ∧
  error (HKXInfo_init path name size (ReadData data)) = None.
Proof.
  intros Hlen Hmagic.
  destruct (parse_standard path name size data Hlen Hmagic) as (tag & raw & n & cvs & ->).
  match goal with |- context [_scan_classes ?s data] =>
    destruct (scan_classes_header s data) as (_ & _ & _ & -> & -> & _)
  end.
  split; reflexivity.
Qed.

(** ** C3: fewer than 64 bytes *)

(** C3. When fewer than 64 bytes were read, the record is invalid, its
    error is the too-small message, and nothing else has been processed:
    the record is the freshly initialised one with [error] assigned, so
    endianness, the version fields, the section count, the detected
    classes, the three flags and the compression classification hold
    their defaults whatever the bytes are. *)
Theorem too_small_no_processing (path name : str) (size : N) (data : bytes) :
  len data < 64 →
  let r := HKXInfo_init path name size (ReadData data) in
  r = set_error (Some (lit "File too small to be a valid HKX"))
        (HKXInfo_defaults path name size) ∧
  valid r = false ∧
  error r = Some (lit "File too small to be a valid HKX") ∧
  endianness r = lit "unknown" ∧
  havok_version_raw r = 0%N ∧ havok_version_str r = lit "unknown" ∧
  user_tag r = 0%N ∧ content_version_string r = [] ∧
  num_sections r = 0%N ∧
  detected_classes r = [] ∧
  has_animation r = false ∧ has_skeleton r = false ∧ has_binding r = false ∧
  compression_type r = lit "unknown".
Proof.
  intros Hsmall r. subst r. unfold HKXInfo_init, _parse.
  rewrite bool_decide_true by done.
  repeat split.
Qed.

Lemma too_small_no_processing_witness :
  len (replicate 40 xff) < 64 ∧
  let r := HKXInfo_init (lit "a.hkx") (lit "a.hkx") 40 (ReadData (replicate 40 xff)) in
  valid r = false ∧ error r = Some (lit "File too small to be a valid HKX").
Proof.
  assert (Hsmall : len (replicate 40 xff) < 64) by (vm_compute; reflexivity).
  split; [exact Hsmall|].
  destruct (too_small_no_processing (lit "a.hkx") (lit "a.hkx") 40 (replicate 40 xff) Hsmall)
    as (_ & Hv & He & _).
  split; assumption.
Defined.

(** ** C1: the magic prefix *)

(** C1, as stated, fails: a buffer that is exactly the 8 magic bytes is
    shorter than 64 bytes and is rejected before the magic is looked at. *)
Lemma magic_prefix_alone_invalid :
  slice HKX_MAGIC_LE 0 8 = HKX_MAGIC_LE ∧
  valid (HKXInfo_init (lit "a.hkx") (lit "a.hkx") 8 (ReadData HKX_MAGIC_LE)) = false ∧
  error (HKXInfo_init (lit "a.hkx") (lit "a.hkx") 8 (ReadData HKX_MAGIC_LE))
    = Some (lit "File too small to be a valid HKX").
Proof. repeat split. Qed.

(** C1, amended. Every buffer of at least 64 bytes whose first 8 bytes
    are the magic constant yields a valid record without error, whatever
    the remaining bytes are. *)
Theorem magic_prefix_valid (path name : str) (size : N) (data : bytes) :
  64 <= len data → slice data 0 8 = HKX_MAGIC_LE →
  valid (HKXInfo_init path name size (ReadData data)) = true ∧
  error (HKXInfo_init path name size (ReadData data)) = None.
Proof. apply parse_standard_valid. Qed.

Lemma magic_prefix_valid_witness :
  valid (HKXInfo_init (lit "a.hkx") (lit "a.hkx") 64
           (ReadData (HKX_MAGIC_LE ++ replicate 56 xff))) = true.
Proof.
  apply (magic_prefix_valid (lit "a.hkx") (lit "a.hkx") 64 (HKX_MAGIC_LE ++ replicate 56 xff)).
  - vm_compute. discriminate.
  - reflexivity.
Defined.

(** ** C4: the reported endianness *)

(** C4. On a buffer of at least 64 bytes that starts with the magic
    constant, the record is valid and its endianness is [big] when the
    byte at offset 0x11 is zero and [little] otherwise; in particular an
    80-byte such buffer with 0x00 at offset 0x11 is valid and [big]. *)
Theorem standard_header_endianness (path name : str) (size : N) (data : bytes) :
  64 <= len data → slice data 0 8 = HKX_MAGIC_LE →
  let r := HKXInfo_init path name size (ReadData data) in
  valid r = true ∧
  (∃ c, data !! 0x11%nat = Some c ∧
        endianness r = if bool_decide (Byte.to_N c = 0%N) then lit "big" else lit "little") ∧
  (len data = 80 → data !! 0x11%nat = Some x00 →
   valid r = true ∧ endianness r = lit "big").
Proof.
  intros Hlen Hmagic r.
  assert (Hv : valid r = true) by (apply parse_standard_valid; assumption).
  assert (He : endianness r = endian_label data).
  { subst r.
    destruct (parse_standard path name size data Hlen Hmagic) as (tag & raw & n & cvs & ->).
    match goal with |- context [_scan_classes ?s data] =>
      destruct (scan_classes_header s data) as (_ & _ & _ & _ & _ & -> & _)
    end.
    reflexivity. }
  split; [exact Hv|]. split.
  - destruct (lookup_lt_is_Some_2 data 0x11%nat) as [c Hc]; [unfold len in Hlen; lia|].
    exists c. split; [exact Hc|]. rewrite He. unfold endian_label. by rewrite Hc.
  - intros _ Hzero. split; [exact Hv|]. rewrite He. unfold endian_label. by rewrite Hzero.
Qed.

Lemma standard_header_endianness_witness :
  let data := HKX_MAGIC_LE ++ replicate 72 x00 in
  let r := HKXInfo_init (lit "a.hkx") (lit "a.hkx") 80 (ReadData data) in
  len data = 80 ∧ valid r = true ∧ endianness r = lit "big".
Proof.
  intros data r.
  assert (Hlen : 64 <= len data) by (vm_compute; discriminate).
  assert (Hmagic : slice data 0 8 = HKX_MAGIC_LE) by reflexivity.
  destruct (standard_header_endianness (lit "a.hkx") (lit "a.hkx") 80 data Hlen Hmagic)
    as (_ & _ & H80).
  split; [reflexivity|]. apply H80; reflexivity.
Defined.

(** ** C7: the version label *)

(** C7. On a standard-header buffer (magic prefix, at least 64 bytes) the
    [try] block completes without [struct.error], no error is recorded,
    and the version label is the one the specification describes: the
    table entry of the little-endian value at 0x0C when that is a key,
    else the entry of the first of the values at 0x10, 0x14, 0x28, 0x2C
    that is a key, else [unknown (0x........)] built from the value at
    0x0C. *)
Theorem standard_header_version_label (path name : str) (size : N) (data : bytes) :
  64 <= len data → slice data 0 8 = HKX_MAGIC_LE →
  let r := HKXInfo_init path name size (ReadData data) in
  snd (parse_header_fields data (set_valid true (HKXInfo_defaults path name size))) = Some tt ∧
  error r = None ∧
  havok_version_str r = spec_version_label data.
Proof.
  intros Hlen Hmagic r. split; [|split].
  - destruct (parse_header_fields_run data Hlen (set_valid true (HKXInfo_defaults path name size)))
      as (tag & raw & n & ->); done.
  - apply parse_standard_valid; assumption.
  - subst r.
    destruct (parse_standard path name size data Hlen Hmagic) as (tag & raw & n & cvs & ->).
    match goal with |- context [_scan_classes ?s data] =>
      destruct (scan_classes_header s data) as (_ & _ & _ & _ & _ & _ & _ & -> & _)
    end.
    reflexivity.
Qed.

Lemma first_known_version_first data pre offset post label :
  Forall (λ o, HAVOK_VERSIONS !! le_uint (slice data o (o + 4)) = None) pre →
  HAVOK_VERSIONS !! le_uint (slice data offset (offset + 4)) = Some label →
  first_known_version data (pre ++ offset :: post) = Some label.
Proof.
  intros Hpre Hoff. induction Hpre as [|o pre Ho _ IH]; simpl.
  - by rewrite first_known_version_cons, Hoff.
  - by rewrite first_known_version_cons, Ho.
Qed.

Lemma first_known_version_none data offsets :
  Forall (λ o, HAVOK_VERSIONS !! le_uint (slice data o (o + 4)) = None) offsets →
  first_known_version data offsets = None.
Proof.
  induction 1 as [|o offsets Ho _ IH]; [done|].
  by rewrite first_known_version_cons, Ho.
Qed.

Lemma standard_header_version_label_witness :
  let data := HKX_MAGIC_LE ++ [x01; x00; x00; x00] ++ [xab; x00; x00; x0c]
              ++ [x00; x01; x00; x00] ++ [x00; x00; x00; x0e] ++ replicate 40 x00 in
  64 <= len data ∧ slice data 0 8 = HKX_MAGIC_LE ∧
  havok_version_str (HKXInfo_init (lit "a.hkx") (lit "a.hkx") 64 (ReadData data))
    = lit "hk2018 (Elden Ring / DS3)".
Proof.
  intros data.
  assert (Hlen : 64 <= len data) by (vm_compute; discriminate).
  assert (Hmagic : slice data 0 8 = HKX_MAGIC_LE) by reflexivity.
  destruct (standard_header_version_label (lit "a.hkx") (lit "a.hkx") 64 data Hlen Hmagic)
    as (_ & _ & Hlabel).
  split; [exact Hlen|]. split; [exact Hmagic|]. rewrite Hlabel. vm_compute. reflexivity.
Defined.

Example version_label_unknown :
  havok_version_str
    (HKXInfo_init [] [] 64
       (ReadData (HKX_MAGIC_LE ++ [x01; x00; x00; x00] ++ [xab; x00; x00; x0c] ++ replicate 48 x00)))
  = lit "unknown (0x0C0000AB)".
Proof. vm_compute. reflexivity. Qed.

(** ** C5: the textual marker *)

(** C5. On a buffer of at least 64 bytes that does not start with the
    magic constant but starts with [hk_] or [HK_], the record is valid;
    the content version string is the ASCII decoding of the bytes before
    the first NUL of the first 64 bytes (when there is one), and when it
    contains [2018] the version label is the hk2018 one. *)
Theorem marker_header_valid (path name : str) (size : N) (data : bytes) :
  64 <= len data → slice data 0 8 ≠ HKX_MAGIC_LE →
  slice data 0 3 = blit "hk_" ∨ slice data 0 3 = blit "HK_" →
  let r := HKXInfo_init path name size (ReadData data) in
  let end_ := find_in [x00] data 0 64 in
  valid r = true ∧
  content_version_string r =
    (if bool_decide (0 < end_) then decode_ascii_replace (slice data 0 end_) else []) ∧
  (contains (lit "2018") (content_version_string r) = true →
   havok_version_str r = lit "hk2018 (Elden Ring / DS3)").
Proof.
  intros Hlen Hmagic Hmarker r end_. subst r.
  unfold HKXInfo_init, _parse.
  rewrite bool_decide_false by lia.
  rewrite bool_decide_true by done.
  unfold _parse_alternative_header.
  assert (Hcond : bool_decide (slice data 0 3 = blit "hk_")
                  || bool_decide (slice data 0 3 = blit "HK_") = true).
  { destruct Hmarker as [H|H]; rewrite H; reflexivity. }
  rewrite Hcond. fold end_.
  match goal with |- context [_scan_classes ?s data] =>
    destruct (scan_classes_header s data) as (_ & _ & _ & -> & _ & _ & _ & -> & _ & _ & ->)
  end.
  destruct (bool_decide (0 < end_)); [|repeat split; done].
  cbn [content_version_string set_content_version_string].
  destruct (contains (lit "2018") _) eqn:H2018; [repeat split; done|].
  repeat case_match; (split; [done|split; [done|simpl; intros; congruence]]).
Qed.

Lemma marker_header_valid_witness :
  let data := blit "hk_2018.1.0-r1" ++ replicate 50 x00 in
  let r := HKXInfo_init (lit "a.hkx") (lit "a.hkx") 64 (ReadData data) in
  valid r = true ∧ content_version_string r = lit "hk_2018.1.0-r1" ∧
  havok_version_str r = lit "hk2018 (Elden Ring / DS3)".
Proof.
  intros data r.
  assert (Hlen : 64 <= len data) by (vm_compute; discriminate).
  assert (Hmagic : slice data 0 8 ≠ HKX_MAGIC_LE) by (vm_compute; discriminate).
  assert (Hmarker : slice data 0 3 = blit "hk_" ∨ slice data 0 3 = blit "HK_")
    by (left; reflexivity).
  destruct (marker_header_valid (lit "a.hkx") (lit "a.hkx") 64 data Hlen Hmagic Hmarker)
    as (Hv & Hc & Hl).
  subst r. split; [exact Hv|]. split; [rewrite Hc; vm_compute; reflexivity|].
  apply Hl. rewrite Hc. vm_compute. reflexivity.
Defined.

(** ** The alternative header *)

Lemma scan_magic_offsets_cases data offsets s :
  scan_magic_offsets data offsets s = s ∨
  scan_magic_offsets data offsets s = set_valid true s.
Proof.
  induction offsets as [|offset rest IH]; simpl; [by left|].
  case_match; [by right | exact IH].
Qed.

Lemma scan_magic_offsets_none data offsets s :
  Forall (λ offset, slice data offset (offset + 8) ≠ HKX_MAGIC_LE) offsets →
  scan_magic_offsets data offsets s = s.
Proof.
  induction 1 as [|offset rest Hoff _ IH]; simpl; [done|].
  by rewrite bool_decide_false.
Qed.

Lemma slice_prefix_3_8 (data : bytes) : slice data 0 3 = take 3 (slice data 0 8).
Proof. unfold slice. simpl. by rewrite take_take. Qed.

Lemma marker_not_magic (data : bytes) :
  slice data 0 3 = blit "hk_" ∨ slice data 0 3 = blit "HK_" →
  slice data 0 8 ≠ HKX_MAGIC_LE.
Proof.
  intros Hmarker Hmagic. rewrite slice_prefix_3_8, Hmagic in Hmarker.
  destruct Hmarker; discriminate.
Qed.

(** An invalid record is the freshly initialised one with an error
    message assigned. *)
Lemma init_invalid_shape path name size r :
  valid (HKXInfo_init path name size r) = false →
  ∃ msg, HKXInfo_init path name size r
         = set_error (Some msg) (HKXInfo_defaults path name size).
Proof.
  destruct r as [e|data]; [by eexists|].
  destruct (decide (len data < 64)) as [Hsmall|Hlen].
  { intros _. unfold HKXInfo_init, _parse. rewrite bool_decide_true by done. by eexists. }
  destruct (decide (slice data 0 8 = HKX_MAGIC_LE)) as [Hmagic|Hmagic].
  { intros Hinv. destruct (parse_standard_valid path name size data) as [Hv _];
      [lia|done|congruence]. }
  unfold HKXInfo_init, _parse.
  rewrite bool_decide_false by done. rewrite bool_decide_true by done.
  unfold _parse_alternative_header.
  set (s0 := HKXInfo_defaults path name size).
  destruct (_ || _).
  { match goal with |- context [_scan_classes ?s data] =>
      destruct (scan_classes_header s data) as (_ & _ & _ & -> & _)
    end.
    repeat case_match; discriminate. }
  destruct (scan_magic_offsets_cases data (range0 (Z.min 256 (len data - 8)) 4) s0)
    as [-> | ->]; [|discriminate].
  cbn [valid s0 HKXInfo_defaults negb].
  destruct (detected_classes (_scan_classes s0 data)) eqn:Hdc; [|discriminate].
  rewrite (scan_classes_empty s0 data Hdc). intros _. by eexists.
Qed.

(** ** C10: invalid records hold the defaults *)

(** C10. Whatever the outcome of reading the file, an invalid record has
    an error message, and its classification and header attributes are
    the ones [__init__] assigned: no detected class, the three flags
    false, compression and endianness [unknown], no section count, no
    raw version, an empty content version string. *)
Theorem invalid_record_defaults (path name : str) (size : N) (r : read_result) :
  valid (HKXInfo_init path name size r) = false →
  let info := HKXInfo_init path name size r in
  error info ≠ None ∧
  detected_classes info = [] ∧
  has_animation info = false ∧ has_skeleton info = false ∧ has_binding info = false ∧
  compression_type info = lit "unknown" ∧
  endianness info = lit "unknown" ∧
  num_sections info = 0%N ∧
  havok_version_raw info = 0%N ∧
  content_version_string info = [].
Proof.
  intros Hinv info. subst info.
  destruct (init_invalid_shape path name size r Hinv) as [msg ->].
  repeat split. discriminate.
Qed.

Lemma invalid_record_defaults_witness :
  let info := HKXInfo_init (lit "a.hkx") (lit "a.hkx") 64 (ReadData (replicate 64 x41)) in
  valid info = false ∧
  error info = Some (lit "No valid HKX header or Havok class signatures found") ∧
  detected_classes info = [] ∧ compression_type info = lit "unknown".
Proof.
  intros info.
  assert (Hinv : valid info = false) by (vm_compute; reflexivity).
  destruct (invalid_record_defaults (lit "a.hkx") (lit "a.hkx") 64
              (ReadData (replicate 64 x41)) Hinv)
    as (_ & Hd & _ & _ & _ & Hc & _).
  split; [exact Hinv|]. split; [vm_compute; reflexivity|]. split; assumption.
Defined.

(** ** C2: detected classes and validity *)

(** C2, as stated, fails: no outcome of reading a file gives a record
    with a detected class and [valid] false. *)
Lemma no_invalid_record_with_classes :
  ¬ ∃ (path name : str) (size : N) (r : read_result),
      detected_classes (HKXInfo_init path name size r) ≠ [] ∧
      valid (HKXInfo_init path name size r) = false.
Proof.
  intros (path & name & size & r & Hdc & Hinv).
  destruct (init_invalid_shape path name size r Hinv) as [msg Heq].
  rewrite Heq in Hdc. by apply Hdc.
Qed.

(** C2, amended. Whatever the outcome of reading the file, a record with
    a non-empty list of detected classes is valid. *)
Theorem detected_classes_imply_valid (path name : str) (size : N) (r : read_result) :
  detected_classes (HKXInfo_init path name size r) ≠ [] →
  valid (HKXInfo_init path name size r) = true.
Proof.
  intros Hdc. destruct (valid _) eqn:Hv; [done|].
  destruct (init_invalid_shape path name size r Hv) as [msg Heq].
  rewrite Heq in Hdc. by destruct Hdc.
Qed.

Lemma detected_classes_imply_valid_witness :
  let data := replicate 4 x41 ++ blit "hkaSkeleton" ++ replicate 49 x00 in
  let info := HKXInfo_init (lit "a.hkx") (lit "a.hkx") 64 (ReadData data) in
  slice data 0 8 ≠ HKX_MAGIC_LE ∧
  detected_classes info = [lit "hkaSkeleton"] ∧
  havok_version_str info = lit "unknown (headerless, classes detected)" ∧
  valid info = true.
Proof.
  intros data info.
  split; [vm_compute; discriminate|].
  split; [vm_compute; reflexivity|].
  split; [vm_compute; reflexivity|].
  apply (detected_classes_imply_valid (lit "a.hkx") (lit "a.hkx") 64 (ReadData data)).
  vm_compute. discriminate.
Defined.

(** ** C6: spline and interleaved signatures together *)

Lemma scan_classes_both s data :
  contains (blit "hkaSplineCompressedAnimation") data = true →
  contains (blit "hkaInterleavedUncompressedAnimation") data = true →
  compression_type (_scan_classes s data) = lit "interleaved".
Proof.
  intros Hspline Hinter.
  unfold _scan_classes, ER_CLASSNAME_SIGNATURES. cbn [foldl].
  unfold scan_classes_step. rewrite Hspline, Hinter.
  repeat match goal with
         | |- context [contains (blit ?sig) data] => destruct (contains (blit sig) data)
         end;
    vm_compute; reflexivity.
Qed.

(** C6, as stated, fails: the two signatures written one after the other
    make a 63-byte buffer, which is rejected as too small before any
    signature is looked for. *)
Lemma both_signatures_too_small :
  let data := blit "hkaSplineCompressedAnimation" ++ blit "hkaInterleavedUncompressedAnimation" in
  contains (blit "hkaSplineCompressedAnimation") data = true ∧
  contains (blit "hkaInterleavedUncompressedAnimation") data = true ∧
  len data = 63 ∧
  compression_type (HKXInfo_init (lit "a.hkx") (lit "a.hkx") 63 (ReadData data))
    = lit "unknown" ∧
  lit "unknown" ≠ lit "interleaved".
Proof. vm_compute. repeat split. discriminate. Qed.

(** C6, amended. When the signature scan runs on a buffer that holds
    both signatures (at least 64 bytes, and either the magic constant at
    offset 0, or the textual marker, or no magic constant at any of the
    offsets 0, 4, 8, ... below [min(256, len(data) - 8)]), the
    compression classification is [interleaved], the later of the two in
    the signature list, wherever the two occur in the buffer. *)
Theorem both_signatures_interleaved (path name : str) (size : N) (data : bytes) :
  64 <= len data →
  contains (blit "hkaSplineCompressedAnimation") data = true →
  contains (blit "hkaInterleavedUncompressedAnimation") data = true →
  slice data 0 8 = HKX_MAGIC_LE
  ∨ slice data 0 3 = blit "hk_" ∨ slice data 0 3 = blit "HK_"
  ∨ Forall (λ offset, slice data offset (offset + 8) ≠ HKX_MAGIC_LE)
           (range0 (Z.min 256 (len data - 8)) 4) →
  compression_type (HKXInfo_init path name size (ReadData data)) = lit "interleaved".
Proof.
  intros Hlen Hspline Hinter Hpath.
  destruct (decide (slice data 0 8 = HKX_MAGIC_LE)) as [Hmagic|Hmagic].
  { destruct (parse_standard path name size data Hlen Hmagic) as (tag & raw & n & cvs & ->).
    by apply scan_classes_both. }
  unfold HKXInfo_init, _parse.
  rewrite bool_decide_false by lia. rewrite bool_decide_true by done.
  unfold _parse_alternative_header.
  destruct (bool_decide (slice data 0 3 = blit "hk_") ||
            bool_decide (slice data 0 3 = blit "HK_")) eqn:Hmarker.
  { by apply scan_classes_both. }
  apply orb_false_elim in Hmarker as [Hhk HHK].
  apply bool_decide_eq_false in Hhk, HHK.
  destruct Hpath as [?|[?|[?|Hnone]]]; try done.
  rewrite (scan_magic_offsets_none _ _ _ Hnone).
  cbn [valid HKXInfo_defaults negb].
  pose proof (scan_classes_both (HKXInfo_defaults path name size) data Hspline Hinter) as Hc.
  repeat case_match; exact Hc.
Qed.

(** The branch that finds the magic constant at a later aligned offset
    marks the record valid and does not scan for signatures. *)
Example magic_at_offset_not_scanned :
  let data := replicate 4 x00 ++ HKX_MAGIC_LE
              ++ blit "hkaSplineCompressedAnimation"
              ++ blit "hkaInterleavedUncompressedAnimation" in
  let info := HKXInfo_init (lit "a.hkx") (lit "a.hkx") 75 (ReadData data) in
  valid info = true ∧ detected_classes info = [] ∧ compression_type info = lit "unknown".
Proof. vm_compute. repeat split. Qed.

Lemma both_signatures_interleaved_witness :
  let data := blit "hkaInterleavedUncompressedAnimation"
              ++ blit "hkaSplineCompressedAnimation" ++ [x00] in
  let info := HKXInfo_init (lit "a.hkx") (lit "a.hkx") 64 (ReadData data) in
  len data = 64 ∧ compression_type info = lit "interleaved".
Proof.
  intros data info. split; [reflexivity|].
  apply (both_signatures_interleaved (lit "a.hkx") (lit "a.hkx") 64 data).
  - vm_compute. discriminate.
  - vm_compute. reflexivity.
  - vm_compute. reflexivity.
  - right. right. right.
    apply (bool_decide_unpack _). vm_compute. exact I.
Defined.

(** ** C8: the compatibility check *)

(** C8. The check is a function of the record. An invalid record gets
    the single [INVALID] issue, whatever its other attributes are; a
    valid record to which none of the version, compression and
    endianness rules applies gets the single [OK] entry; and the list is
    never empty. *)
Theorem compatibility_issues_never_empty (info : HKXInfo) :
  (valid info = false → check_skyrim_compatibility info = [ISSUE_INVALID]) ∧
  (valid info = true →
   contains (lit "2018") (havok_version_str info) = false →
   contains (lit "Elden Ring") (havok_version_str info) = false →
   compression_type info ≠ lit "spline" →
   endianness info ≠ lit "big" →
   check_skyrim_compatibility info = [ISSUE_OK]) ∧
  check_skyrim_compatibility info ≠ [].
Proof.
  unfold check_skyrim_compatibility. repeat split.
  - by intros ->.
  - intros -> -> -> Hc He. cbn [negb orb].
    rewrite !bool_decide_false by done. reflexivity.
  - destruct (valid info); cbn [negb]; [|discriminate].
    destruct (_ || _), (bool_decide (compression_type info = _)),
      (bool_decide (endianness info = _)); discriminate.
Qed.

Lemma compatibility_issues_never_empty_witness :
  check_skyrim_compatibility
    (HKXInfo_init (lit "a.hkx") (lit "a.hkx") 40 (ReadData (replicate 40 x00)))
  = [ISSUE_INVALID] ∧
  check_skyrim_compatibility
    (HKXInfo_init (lit "b.hkx") (lit "b.hkx") 64
       (ReadData (replicate 4 x41 ++ blit "hkaSkeleton" ++ replicate 49 x00)))
  = [ISSUE_OK].
Proof.
  split.
  - apply (compatibility_issues_never_empty
             (HKXInfo_init (lit "a.hkx") (lit "a.hkx") 40 (ReadData (replicate 40 x00)))).
    reflexivity.
  - apply (compatibility_issues_never_empty
             (HKXInfo_init (lit "b.hkx") (lit "b.hkx") 64
                (ReadData (replicate 4 x41 ++ blit "hkaSkeleton" ++ replicate 49 x00)))).
    + vm_compute. reflexivity.
    + vm_compute. reflexivity.
    + vm_compute. reflexivity.
    + vm_compute. discriminate.
    + vm_compute. discriminate.
Defined.

Example compatibility_all_rules :
  check_skyrim_compatibility
    (set_compression_type (lit "spline")
       (set_endianness (lit "big")
          (set_havok_version_str (lit "hk2018 (Elden Ring / DS3)")
             (set_valid true (HKXInfo_defaults [] [] 0)))))
  = [ISSUE_VERSION; ISSUE_COMPRESSION; ISSUE_ENDIAN].
Proof. vm_compute. reflexivity. Qed.

(** ** C9: the summary *)

Section Tables.

Implicit Types (d : gmap str nat) (k : str).

Lemma table_sum_empty : table_sum ∅ = 0%nat.
Proof. apply map_fold_empty. Qed.

Lemma table_sum_insert_fresh d k v :
  d !! k = None → table_sum (<[k := v]> d) = (v + table_sum d)%nat.
Proof.
  intros Hk. unfold table_sum.
  rewrite map_fold_insert_L; [done| |done].
  intros. lia.
Qed.

Lemma table_sum_delete d k v :
  d !! k = Some v → table_sum d = (v + table_sum (delete k d))%nat.
Proof.
  intros Hk. unfold table_sum.
  rewrite (map_fold_delete_L _ _ k v d); [done| |done].
  intros. lia.
Qed.

(** Counting a key once more adds one to the sum of the table. *)
Lemma table_sum_count_up d k : table_sum (count_up k d) = S (table_sum d).
Proof.
  unfold count_up. destruct (d !! k) as [v|] eqn:Hk; simpl.
  - rewrite <-insert_delete_eq.
    rewrite table_sum_insert_fresh by apply lookup_delete_eq.
    rewrite (table_sum_delete d k v Hk). lia.
  - rewrite table_sum_insert_fresh by done. lia.
Qed.

End Tables.

Lemma count_if_length p results :
  count_if p results = length (filter (λ r, p r = true) results).
Proof. unfold count_if. rewrite sum_list_fmap_const. lia. Qed.

Lemma count_if_cons p r results :
  count_if p (r :: results) = ((if p r then 1 else 0) + count_if p results)%nat.
Proof.
  rewrite !count_if_length, filter_cons.
  destruct (p r); case_decide; simpl; congruence.
Qed.

Lemma count_if_negb p results :
  (count_if p results + count_if (λ r, negb (p r)) results)%nat = length results.
Proof.
  induction results as [|r results IH]; [done|].
  rewrite !count_if_cons. destruct (p r); simpl; lia.
Qed.

Lemma compression_counts_sum results d :
  table_sum (foldl (λ counts r, count_up (compression_type r) counts) d results)
  = (table_sum d + length results)%nat.
Proof.
  revert d. induction results as [|r results IH]; intros d; simpl; [lia|].
  rewrite IH, table_sum_count_up. lia.
Qed.

Lemma version_counts_sum results d :
  table_sum (foldl (λ counts r,
                      if valid r then count_up (havok_version_str r) counts else counts)
                   d results)
  = (table_sum d + count_if valid results)%nat.
Proof.
  revert d. induction results as [|r results IH]; intros d; simpl; [by rewrite Nat.add_0_r|].
  rewrite IH, count_if_cons. destruct (valid r); [rewrite table_sum_count_up|]; lia.
Qed.

(** C9. For a batch of N records (N > 0, otherwise the function returns
    before the summary) of which K are invalid, the summary is computed
    and: the valid count is N - K; the values of the version table, to
    which only valid records contribute, add up to N - K; the values of
    the compression table, to which every record contributes, add up
    to N. *)
Theorem summary_counts (results : list HKXInfo) :
  results ≠ [] →
  let N := length results in
  let K := count_if (λ r, negb (valid r)) results in
  ∃ s, print_results_summary results = Some s ∧
       total s = N ∧
       (K ≤ N)%nat ∧
       valid_count s = (N - K)%nat ∧
       table_sum (version_counts s) = (N - K)%nat ∧
       table_sum (compression_counts s) = N.
Proof.
  intros Hne N K.
  pose proof (count_if_negb valid results) as Hsplit. fold K N in Hsplit.
  unfold print_results_summary.
  destruct results as [|r0 results']; [done|]. cbn [nonempty negb].
  eexists. split; [reflexivity|]. cbn [total valid_count version_counts compression_counts].
  rewrite version_counts_sum, compression_counts_sum, table_sum_empty.
  repeat split; lia.
Qed.

Lemma summary_counts_witness :
  let results :=
    [ HKXInfo_init (lit "a.hkx") (lit "a.hkx") 40 (ReadData (replicate 40 x00));
      HKXInfo_init (lit "b.hkx") (lit "b.hkx") 64
        (ReadData (HKX_MAGIC_LE ++ replicate 56 x00));
      HKXInfo_init (lit "c.hkx") (lit "c.hkx") 0 (ReadError (lit "Permission denied")) ] in
  ∃ s, print_results_summary results = Some s ∧
       valid_count s = 1%nat ∧
       table_sum (version_counts s) = 1%nat ∧
       table_sum (compression_counts s) = 3%nat.
Proof.
  intros results.
  assert (Hne : results ≠ []) by discriminate.
  destruct (summary_counts results Hne) as (s & Hs & _ & _ & Hv & Hver & Hcomp).
  exists s. split; [exact Hs|].
  split; [rewrite Hv; vm_compute; reflexivity|].
  split; [rewrite Hver; vm_compute; reflexivity|].
  rewrite Hcomp. reflexivity.
Defined.

Example summary_empty : print_results_summary [] = None.
Proof. reflexivity. Qed.

(** * Further properties of the analyzer *)

(** ** Searching for one byte *)

Lemma starts_with_single (c : byte) (l : bytes) :
  starts_with [c] l = match l with y :: _ => bool_decide (c = y) | [] => false end.
Proof. destruct l as [|y l']; simpl; [done|]. by rewrite andb_true_r. Qed.

(** A successful search for one byte stops inside the list, at the first
    occurrence. *)
Lemma find_from_found_or_not (c : byte) (l : bytes) (i : Z) :
  find_from [c] l i = -1 ∨ i <= find_from [c] l i.
Proof.
  revert i. induction l as [|z l IH]; intros i; cbn [find_from]; [by left|].
  rewrite starts_with_single.
  case_bool_decide; [right; lia|].
  destruct (IH (i + 1)); [by left|right; lia].
Qed.

Lemma find_from_single (c : byte) (l : bytes) (i e : Z) :
  0 <= i → find_from [c] l i = e → i <= e →
  ∃ k : nat, e = i + Z.of_nat k ∧ (k < length l)%nat ∧ Forall (λ y, y ≠ c) (take k l).
Proof.
  revert i. induction l as [|y l IH]; intros i Hi.
  - simpl. lia.
  - cbn [find_from]. rewrite starts_with_single.
    case_bool_decide as Hy.
    + intros <- _. exists 0%nat. simpl. split; [lia|]. split; [lia|constructor].
    + intros He Hle. destruct (IH (i + 1)) as (k & -> & Hk & Hall); [lia|exact He| |].
      { destruct (find_from_found_or_not c l (i + 1)); lia. }
      exists (S k). simpl. split; [lia|]. split; [lia|].
      constructor; [congruence|done].
Qed.

Lemma to_N_zero (c : byte) : Byte.to_N c = 0%N → c = x00.
Proof.
  intros Hc. pose proof (Byte.of_to_N c) as Hof. rewrite Hc in Hof.
  by injection Hof.
Qed.

(** The text before the first NUL of a window of at most 64 bytes is
    shorter than 64 characters and holds no NUL character. *)
Lemma nul_terminated_text (data : bytes) (start end_ : Z) :
  0 <= start → start <= end_ →
  find_in [x00] data start (start + 64) = end_ →
  let text := decode_ascii_replace (slice data start end_) in
  (length text < 64)%nat ∧ 0%N ∉ text.
Proof.
  intros Hstart Hle Hfind text. unfold find_in in Hfind.
  destruct (find_from_single _ _ _ _ Hstart Hfind Hle) as (k & -> & Hk & Hall).
  assert (Hslice : slice data start (start + Z.of_nat k)
                   = take k (slice data start (start + 64))).
  { unfold slice. rewrite take_take. f_equal.
    unfold slice in Hk. rewrite length_take in Hk. lia. }
  subst text. rewrite Hslice. unfold decode_ascii_replace. split.
  - rewrite length_fmap, length_take.
    unfold slice in Hk. rewrite length_take in Hk. lia.
  - intros Hin. apply list_elem_of_fmap in Hin as (c & Hc & Hin).
    rewrite Forall_forall in Hall. apply (Hall c Hin).
    cbn zeta in Hc. destruct (Byte.to_N c <? 128)%N; [|discriminate].
    by apply to_N_zero.
Qed.

(** ** The signature scan, attribute by attribute *)

Lemma scan_classes_found_classes c s :
  detected_classes (scan_classes_found c s) = detected_classes s ++ [c].
Proof. unfold scan_classes_found. repeat case_match; reflexivity. Qed.

Lemma scan_loop_classes data sigs s :
  detected_classes (foldl (scan_classes_step data) s sigs)
  = detected_classes s ++ (decode_ascii <$> filter (λ sig, contains sig data = true) sigs).
Proof.
  revert s. induction sigs as [|sig sigs IH]; intros s; simpl.
  - by rewrite app_nil_r.
  - rewrite IH, filter_cons. unfold scan_classes_step.
    case_decide as Hsig.
    + rewrite Hsig, scan_classes_found_classes, <-app_assoc. reflexivity.
    + apply not_true_is_false in Hsig. by rewrite Hsig.
Qed.

Lemma scan_classes_detected s data :
  detected_classes (_scan_classes s data) = detected_classes s ++ signatures_in data.
Proof. apply scan_loop_classes. Qed.

Lemma filter_nil_not_Exists {A} (P : A → Prop) `{∀ x, Decision (P x)} (l : list A) :
  filter P l = [] ↔ ¬ Exists P l.
Proof.
  induction l as [|x l IH].
  - rewrite Exists_nil. split; [tauto|done].
  - rewrite filter_cons, Exists_cons. case_decide; [split; [done|tauto]|tauto].
Qed.

Lemma signatures_in_nil data : signatures_in data = [] ↔ ¬ some_signature data.
Proof.
  unfold signatures_in, some_signature.
  pose proof (filter_nil_not_Exists (λ sig, contains sig data = true)
                ER_CLASSNAME_SIGNATURES) as Hfilter.
  rewrite <-Hfilter. split; [apply fmap_nil_inv|by intros ->].
Qed.

(** After a scan of a record without classes and flags, the flags and
    the compression type can be read off the detected classes. *)
Lemma scan_classes_consistent s data :
  detected_classes s = [] → has_animation s = false → has_skeleton s = false →
  has_binding s = false → compression_type s = lit "unknown" →
  let s' := _scan_classes s data in
  has_binding s' = false ∧
  has_skeleton s' = bool_decide (lit "hkaSkeleton" ∈ detected_classes s') ∧
  has_animation s' =
    bool_decide (lit "hkaSplineCompressedAnimation" ∈ detected_classes s'
                 ∨ lit "hkaInterleavedUncompressedAnimation" ∈ detected_classes s'
                 ∨ lit "hkaAnimationBinding" ∈ detected_classes s') ∧
  compression_type s' =
    (if bool_decide (lit "hkaInterleavedUncompressedAnimation" ∈ detected_classes s')
     then lit "interleaved"
     else if bool_decide (lit "hkaSplineCompressedAnimation" ∈ detected_classes s')
          then lit "spline" else lit "unknown").
Proof.
  intros Hdc Ha Hs Hb Hc s'.
  assert (Heq : s' = _scan_classes s data) by reflexivity. clearbody s'.
  destruct s. simpl in Hdc, Ha, Hs, Hb, Hc. revert Heq. subst. intros Heq.
  unfold _scan_classes, ER_CLASSNAME_SIGNATURES in Heq.
  cbn [foldl] in Heq. unfold scan_classes_step in Heq.
  repeat match type of Heq with
         | context [contains (blit ?sig) data] => destruct (contains (blit sig) data)
         end;
    rewrite Heq; vm_compute; repeat split.
Qed.

(** ** The values the [try] block assigns *)

Lemma le_uint_bound (bs : bytes) : (le_uint bs < 256 ^ N.of_nat (length bs))%N.
Proof.
  induction bs as [|c bs IH]; [simpl; lia|].
  cbn [le_uint length]. rewrite Nat2N.inj_succ, N.pow_succ_r'.
  pose proof (Byte.to_N_bounded c). lia.
Qed.

Lemma u32_at_bound data offset : (u32_at data offset < 2 ^ 32)%N.
Proof.
  unfold u32_at. pose proof (le_uint_bound (slice data offset (offset + 4))) as Hb.
  assert (Hlen : (length (slice data offset (offset + 4)) ≤ 4)%nat).
  { unfold slice. rewrite length_take. lia. }
  eapply N.lt_le_trans; [exact Hb|].
  change (2 ^ 32)%N with (256 ^ 4)%N. apply N.pow_le_mono_r; lia.
Qed.

Section StandardHeaderValues.

Variable data : bytes.
Hypothesis Hlen : 64 <= len data.

Lemma probe_version_key offsets s :
  Forall (λ offset, offset + 4 <= 64) offsets →
  ∃ s', probe_version data offsets s = (s', Some tt) ∧
        match first_known_version data offsets with
        | Some label =>
            ∃ v, HAVOK_VERSIONS !! v = Some label ∧ (v < 2 ^ 32)%N ∧
                 s' = set_havok_version_str label (set_havok_version_raw v s)
        | None => s' = s
        end.
Proof.
  induction 1 as [|offset rest Hoff _ IH]; [by exists s|].
  rewrite first_known_version_cons. simpl.
  rewrite bool_decide_true by lia.
  rewrite Try_bind_run, unpack_ok by done.
  destruct (HAVOK_VERSIONS !! _) as [label|] eqn:Hlook; [|exact IH].
  eexists. split; [reflexivity|].
  eexists. split; [exact Hlook|]. split; [apply u32_at_bound|reflexivity].
Qed.

Lemma probe_sections_value s :
  num_sections s = 0%N →
  probe_sections data [0x14; 0x18] s = (set_num_sections (plausible_sections data) s, Some tt).
Proof.
  intros Hzero. unfold plausible_sections, u32_at. cbn [probe_sections].
  rewrite !bool_decide_true by lia.
  rewrite Try_bind_run, unpack_ok by done.
  destruct (bool_decide (0 < _)%N && bool_decide (_ < 100)%N); [done|].
  rewrite Try_bind_run, unpack_ok by done.
  destruct (bool_decide (0 < _)%N && bool_decide (_ < 100)%N); [done|].
  rewrite <-Hzero. by destruct s.
Qed.

Lemma parse_header_fields_values s :
  havok_version_raw s = 0%N → num_sections s = 0%N →
  ∃ raw,
    (raw < 2 ^ 32)%N ∧
    (raw = 0%N ∧ HAVOK_VERSIONS !! u32_at data 0x0C = None
               ∧ first_known_version data [0x10; 0x14; 0x28; 0x2C] = None
     ∨ HAVOK_VERSIONS !! raw = Some (spec_version_label data)) ∧
    parse_header_fields data s =
      (set_num_sections (plausible_sections data)
         (set_havok_version_str (spec_version_label data)
            (set_havok_version_raw raw
               (set_endianness (endian_label data) (set_user_tag (u32_at data 0x08) s)))),
       Some tt).
Proof.
  intros Hraw Hsec. unfold parse_header_fields.
  rewrite Try_bind_run, unpack_ok by done.
  rewrite Try_bind_run. unfold assign at 1.
  rewrite (bool_decide_true (17 < len data)) by lia.
  rewrite Try_bind_run. unfold assign at 1.
  rewrite Try_bind_run, unpack_ok by done.
  rewrite Try_bind_run.
  unfold spec_version_label. rewrite endian_label_eq.
  change (le_uint (slice data 8 (8 + 4))) with (u32_at data 8).
  change (le_uint (slice data 12 (12 + 4))) with (u32_at data 12).
  change (le_uint (slice data 12 16)) with (u32_at data 12).
  set (s1 := set_endianness _ _).
  destruct (HAVOK_VERSIONS !! u32_at data 12) as [label|] eqn:Hlook.
  - rewrite Try_bind_run. unfold assign at 1 2.
    rewrite probe_sections_value by exact Hsec.
    exists (u32_at data 12). split; [apply u32_at_bound|]. split; [by right|done].
  - destruct (probe_version_key [0x10; 0x14; 0x28; 0x2C] s1) as (s2 & Hrun & Hs2);
      [repeat constructor; lia|].
    rewrite Try_bind_run, Hrun, Try_bind_run. unfold read_attr.
    destruct (first_known_version data _) as [label|].
    + destruct Hs2 as (v & Hv & Hbound & ->).
      rewrite bool_decide_false by (by eapply HAVOK_VERSIONS_key_nonzero).
      unfold mret, Try_ret.
      rewrite probe_sections_value by exact Hsec.
      exists v. split; [exact Hbound|]. split; [by right|done].
    + subst s2. rewrite bool_decide_true by done.
      unfold assign at 1.
      rewrite probe_sections_value by exact Hsec.
      exists 0%N. split; [lia|]. split; [by left|].
      subst s1. destruct s. simpl in *. by subst.
Qed.

End StandardHeaderValues.

(** ** The version-string scan *)

(** The scan either leaves the record alone or assigns a text that is
    shorter than 64 characters and free of NUL. *)
Lemma scan_version_patterns_text data patterns s :
  scan_version_patterns data patterns s = s ∨
  ∃ cvs, (length cvs < 64)%nat ∧ (0%N ∉ cvs) ∧
         scan_version_patterns data patterns s = set_content_version_string cvs s.
Proof.
  induction patterns as [|pattern rest IH]; simpl; [by left|].
  case_bool_decide as Hidx; [|exact IH].
  case_bool_decide as Hend; [|exact IH].
  right. eexists. split; [|split; [|reflexivity]].
  - by apply nul_terminated_text; [|lia|].
  - by apply nul_terminated_text; [|lia|].
Qed.

(** ** Every path through [_parse], on at least 64 bytes *)

Lemma scan_magic_offsets_found data offsets s :
  Exists (λ offset, slice data offset (offset + 8) = HKX_MAGIC_LE) offsets →
  scan_magic_offsets data offsets s = set_valid true s.
Proof.
  induction 1 as [offset rest Hoff|offset rest _ IH]; simpl.
  - by rewrite bool_decide_true.
  - case_bool_decide; [done|exact IH].
Qed.

Lemma standard_shape path name size data :
  64 <= len data → slice data 0 8 = HKX_MAGIC_LE →
  ∃ raw cvs,
    (raw < 2 ^ 32)%N ∧
    (raw = 0%N ∧ HAVOK_VERSIONS !! u32_at data 0x0C = None
               ∧ first_known_version data [0x10; 0x14; 0x28; 0x2C] = None
     ∨ HAVOK_VERSIONS !! raw = Some (spec_version_label data)) ∧
    (length cvs < 64)%nat ∧ (0%N ∉ cvs) ∧
    HKXInfo_init path name size (ReadData data) =
    _scan_classes
      (set_content_version_string cvs
         (set_num_sections (plausible_sections data)
            (set_havok_version_str (spec_version_label data)
               (set_havok_version_raw raw
                  (set_endianness (endian_label data)
                     (set_user_tag (u32_at data 0x08)
                        (set_valid true (HKXInfo_defaults path name size))))))))
      data.
Proof.
  intros Hlen Hmagic. unfold HKXInfo_init, _parse.
  rewrite bool_decide_false by lia.
  rewrite bool_decide_false by (by intros []).
  unfold try_except_pass, _scan_version_string.
  destruct (parse_header_fields_values data Hlen (set_valid true (HKXInfo_defaults path name size)))
    as (raw & Hbound & Hraw & ->); [done|done|].
  exists raw. cbn [fst].
  match goal with |- context [scan_version_patterns data ?ps ?s] =>
    destruct (scan_version_patterns_text data ps s) as [->|(cvs & Hl & Hn & ->)]
  end.
  - exists []. repeat split; try done; [simpl; lia|by apply not_elem_of_nil].
  - exists cvs. repeat split; done.
Qed.

Lemma marker_shape path name size data :
  64 <= len data → has_marker data →
  let end_ := find_in [x00] data 0 64 in
  let cvs := decode_ascii_replace (slice data 0 end_) in
  HKXInfo_init path name size (ReadData data) =
  _scan_classes
    (if bool_decide (0 < end_)
     then set_havok_version_str (marker_version_label cvs (lit "unknown"))
            (set_content_version_string cvs
               (set_valid true (HKXInfo_defaults path name size)))
     else set_valid true (HKXInfo_defaults path name size))
    data.
Proof.
  intros Hlen Hmarker end_ cvs. unfold HKXInfo_init, _parse.
  rewrite bool_decide_false by lia.
  rewrite bool_decide_true by (by apply marker_not_magic).
  unfold _parse_alternative_header.
  assert (Hcond : bool_decide (slice data 0 3 = blit "hk_")
                  || bool_decide (slice data 0 3 = blit "HK_") = true).
  { destruct Hmarker as [H|H]; rewrite H; reflexivity. }
  rewrite Hcond. fold end_. fold cvs. f_equal.
  destruct (bool_decide (0 < end_)); [|reflexivity].
  cbn [content_version_string set_content_version_string]. unfold marker_version_label.
  repeat case_match; reflexivity.
Qed.

Lemma no_marker_shape path name size data :
  64 <= len data → slice data 0 8 ≠ HKX_MAGIC_LE → ¬ has_marker data →
  let d := HKXInfo_defaults path name size in
  let info := HKXInfo_init path name size (ReadData data) in
  (magic_at_aligned_offset data ∧ info = set_valid true d)
  ∨ (¬ magic_at_aligned_offset data ∧ some_signature data ∧
     info = set_havok_version_str (lit "unknown (headerless, classes detected)")
              (set_valid true (_scan_classes d data)))
  ∨ (¬ magic_at_aligned_offset data ∧ ¬ some_signature data ∧
     info = set_error (Some (lit "No valid HKX header or Havok class signatures found")) d).
Proof.
  intros Hlen Hmagic Hmarker d info. subst info. unfold HKXInfo_init, _parse.
  rewrite bool_decide_false by lia. rewrite bool_decide_true by done.
  unfold _parse_alternative_header. fold d.
  assert (Hcond : bool_decide (slice data 0 3 = blit "hk_")
                  || bool_decide (slice data 0 3 = blit "HK_") = false).
  { apply orb_false_intro; apply bool_decide_eq_false; intros H; apply Hmarker;
      [by left|by right]. }
  rewrite Hcond.
  destruct (decide (magic_at_aligned_offset data)) as [Hoff|Hoff].
  { left. split; [done|]. by rewrite (scan_magic_offsets_found _ _ _ Hoff). }
  right. rewrite scan_magic_offsets_none
    by (apply Forall_Exists_neg in Hoff; exact Hoff).
  cbn [valid d HKXInfo_defaults negb].
  pose proof (scan_classes_detected d data) as Hdc. cbn [detected_classes d HKXInfo_defaults app] in Hdc.
  destruct (decide (some_signature data)) as [Hsig|Hsig].
  - left. split; [done|]. split; [done|].
    destruct (signatures_in data) eqn:Hin; [by apply signatures_in_nil in Hin|].
    by rewrite Hdc.
  - right. split; [done|]. split; [done|].
    apply signatures_in_nil in Hsig. rewrite Hsig in Hdc.
    rewrite (scan_classes_empty d data Hdc). reflexivity.
Qed.

Lemma too_small_shape path name size data :
  len data < 64 →
  HKXInfo_init path name size (ReadData data)
  = set_error (Some (lit "File too small to be a valid HKX")) (HKXInfo_defaults path name size).
Proof. intros Hsmall. unfold HKXInfo_init, _parse. by rewrite bool_decide_true. Qed.

Lemma marker_shape_valid path name size data :
  64 <= len data → has_marker data →
  valid (HKXInfo_init path name size (ReadData data)) = true ∧
  error (HKXInfo_init path name size (ReadData data)) = None.
Proof.
  intros Hlen Hmarker. rewrite (marker_shape path name size data Hlen Hmarker).
  match goal with |- context [_scan_classes ?s data] =>
    destruct (scan_classes_header s data) as (_ & _ & _ & -> & -> & _)
  end.
  by case_bool_decide.
Qed.

(** ** Which files are valid *)

(** X1. The bytes read make a valid record exactly when there are at
    least 64 of them and one of the four recognitions succeeds: the
    magic constant at offset 0, the textual marker, the magic constant
    at one of the aligned offsets, or one of the signatures anywhere. *)
Theorem valid_iff_recognised (path name : str) (size : N) (data : bytes) :
  valid (HKXInfo_init path name size (ReadData data)) = true ↔
  64 <= len data ∧
  (slice data 0 8 = HKX_MAGIC_LE ∨ has_marker data ∨
   magic_at_aligned_offset data ∨ some_signature data).
Proof.
  destruct (decide (len data < 64)) as [Hsmall|Hlen].
  { rewrite too_small_shape by done. simpl. split; [done|lia]. }
  assert (Hlen' : 64 <= len data) by lia.
  destruct (decide (slice data 0 8 = HKX_MAGIC_LE)) as [Hmagic|Hmagic].
  { destruct (parse_standard_valid path name size data Hlen' Hmagic) as [-> _]. tauto. }
  destruct (decide (has_marker data)) as [Hmarker|Hmarker].
  { destruct (marker_shape_valid path name size data Hlen' Hmarker) as [-> _]. tauto. }
  destruct (no_marker_shape path name size data Hlen' Hmagic Hmarker)
    as [(Hoff & ->)|[(Hoff & Hsig & ->)|(Hoff & Hsig & ->)]]; simpl.
  - tauto.
  - tauto.
  - split; [done|tauto].
Qed.

(** X2. Whatever the outcome of reading the file, the record carries an
    error message exactly when it is invalid. *)
Theorem error_iff_invalid (path name : str) (size : N) (r : read_result) :
  error (HKXInfo_init path name size r) = None ↔
  valid (HKXInfo_init path name size r) = true.
Proof.
  destruct r as [e|data]; [simpl; split; discriminate|].
  destruct (decide (len data < 64)) as [Hsmall|Hlen].
  { rewrite too_small_shape by done. simpl. split; discriminate. }
  assert (Hlen' : 64 <= len data) by lia.
  destruct (decide (slice data 0 8 = HKX_MAGIC_LE)) as [Hmagic|Hmagic].
  { destruct (parse_standard_valid path name size data Hlen' Hmagic) as [-> ->]. done. }
  destruct (decide (has_marker data)) as [Hmarker|Hmarker].
  { destruct (marker_shape_valid path name size data Hlen' Hmarker) as [-> ->]. done. }
  destruct (no_marker_shape path name size data Hlen' Hmagic Hmarker)
    as [(Hoff & ->)|[(Hoff & Hsig & ->)|(Hoff & Hsig & ->)]]; simpl.
  - done.
  - destruct (scan_classes_header (HKXInfo_defaults path name size) data)
      as (_ & _ & _ & _ & -> & _). done.
  - split; discriminate.
Qed.

Lemma header_fields_off_standard path name size data :
  len data < 64 ∨ slice data 0 8 ≠ HKX_MAGIC_LE →
  let info := HKXInfo_init path name size (ReadData data) in
  endianness info = lit "unknown" ∧ havok_version_raw info = 0%N ∧
  user_tag info = 0%N ∧ num_sections info = 0%N.
Proof.
  intros Hcase info. subst info.
  destruct (decide (len data < 64)) as [Hsmall|Hlen].
  { rewrite too_small_shape by done. done. }
  destruct Hcase as [?|Hmagic]; [done|].
  assert (Hlen' : 64 <= len data) by lia.
  destruct (decide (has_marker data)) as [Hmarker|Hmarker].
  { rewrite (marker_shape path name size data Hlen' Hmarker).
    match goal with |- context [_scan_classes ?s data] =>
      destruct (scan_classes_header s data)
        as (_ & _ & _ & _ & _ & -> & -> & _ & -> & -> & _)
    end.
    by case_bool_decide. }
  destruct (no_marker_shape path name size data Hlen' Hmagic Hmarker)
    as [(Hoff & ->)|[(Hoff & Hsig & ->)|(Hoff & Hsig & ->)]]; simpl; try done.
  destruct (scan_classes_header (HKXInfo_defaults path name size) data)
    as (_ & _ & _ & _ & _ & -> & -> & _ & -> & -> & _).
  done.
Qed.

(** X3. The header attributes are assigned on the standard path only:
    when fewer than 64 bytes were read or the first 8 bytes are not the
    magic constant, endianness stays [unknown] and the raw version, the
    user tag and the section count stay 0, also for a file that is
    valid by its marker, by a later magic constant or by a signature. *)
Theorem header_fields_only_on_standard_path (path name : str) (size : N) (data : bytes) :
  len data < 64 ∨ slice data 0 8 ≠ HKX_MAGIC_LE →
  let info := HKXInfo_init path name size (ReadData data) in
  endianness info = lit "unknown" ∧ havok_version_raw info = 0%N ∧
  user_tag info = 0%N ∧ num_sections info = 0%N.
Proof. apply header_fields_off_standard. Qed.

Lemma header_fields_only_on_standard_path_witness :
  let data := blit "hk_2018.1.0-r1" ++ replicate 50 x00 in
  let info := HKXInfo_init (lit "a.hkx") (lit "a.hkx") 64 (ReadData data) in
  valid info = true ∧ endianness info = lit "unknown" ∧ num_sections info = 0%N.
Proof.
  intros data info.
  assert (Hcase : len data < 64 ∨ slice data 0 8 ≠ HKX_MAGIC_LE)
    by (right; vm_compute; discriminate).
  destruct (header_fields_only_on_standard_path (lit "a.hkx") (lit "a.hkx") 64 data Hcase)
    as (He & _ & _ & Hn).
  split; [vm_compute; reflexivity|]. split; assumption.
Defined.

(** X4. When the magic constant is not at offset 0 and there is no
    marker, but the magic constant sits at one of the aligned offsets,
    the record is the initial one marked valid: no signature is looked
    for, so no class is detected and the flags, the compression type and
    the version label keep their defaults. *)
Theorem magic_at_offset_only_marks_valid (path name : str) (size : N) (data : bytes) :
  64 <= len data → slice data 0 8 ≠ HKX_MAGIC_LE → ¬ has_marker data →
  magic_at_aligned_offset data →
  let info := HKXInfo_init path name size (ReadData data) in
  info = set_valid true (HKXInfo_defaults path name size) ∧
  valid info = true ∧ error info = None ∧
  havok_version_str info = lit "unknown" ∧
  detected_classes info = [] ∧
  has_animation info = false ∧ has_skeleton info = false ∧
  compression_type info = lit "unknown".
Proof.
  intros Hlen Hmagic Hmarker Hoff info. subst info.
  destruct (no_marker_shape path name size data Hlen Hmagic Hmarker)
    as [(_ & ->)|[(Hno & _)|(Hno & _)]]; done.
Qed.

Lemma magic_at_offset_only_marks_valid_witness :
  let data := replicate 4 x00 ++ HKX_MAGIC_LE
              ++ blit "hkaSkeleton" ++ replicate 41 x00 in
  let info := HKXInfo_init (lit "a.hkx") (lit "a.hkx") 64 (ReadData data) in
  contains (blit "hkaSkeleton") data = true ∧
  valid info = true ∧ detected_classes info = [] ∧ has_skeleton info = false.
Proof.
  intros data info.
  assert (Hlen : 64 <= len data) by (vm_compute; discriminate).
  assert (Hmagic : slice data 0 8 ≠ HKX_MAGIC_LE) by (vm_compute; discriminate).
  assert (Hmarker : ¬ has_marker data) by (intros [H|H]; vm_compute in H; discriminate).
  assert (Hoff : magic_at_aligned_offset data)
    by (apply (bool_decide_unpack _); vm_compute; exact I).
  destruct (magic_at_offset_only_marks_valid (lit "a.hkx") (lit "a.hkx") 64 data
              Hlen Hmagic Hmarker Hoff) as (_ & Hv & _ & _ & Hd & _ & Hs & _).
  split; [vm_compute; reflexivity|]. repeat split; assumption.
Defined.

(** X5. Without any header (no magic constant at offset 0 or at an
    aligned offset, no marker) the signatures decide: when one occurs,
    the record is valid without error, it lists the signatures that
    occur and its version label is the headerless one; when none
    occurs, the record is invalid with the no-header error. *)
Theorem headerless_by_signature (path name : str) (size : N) (data : bytes) :
  64 <= len data → slice data 0 8 ≠ HKX_MAGIC_LE → ¬ has_marker data →
  ¬ magic_at_aligned_offset data →
  let info := HKXInfo_init path name size (ReadData data) in
  (some_signature data →
   valid info = true ∧ error info = None ∧
   havok_version_str info = lit "unknown (headerless, classes detected)" ∧
   detected_classes info = signatures_in data) ∧
  (¬ some_signature data →
   valid info = false ∧
   error info = Some (lit "No valid HKX header or Havok class signatures found")).
Proof.
  intros Hlen Hmagic Hmarker Hoff info. subst info.
  destruct (no_marker_shape path name size data Hlen Hmagic Hmarker)
    as [(? & _)|[(_ & Hsig & ->)|(_ & Hsig & ->)]]; [done| |].
  - split; [|done]. intros _. simpl.
    destruct (scan_classes_header (HKXInfo_defaults path name size) data)
      as (_ & _ & _ & _ & -> & _).
    by rewrite scan_classes_detected.
  - split; [done|]. intros _. done.
Qed.

Lemma headerless_by_signature_witness :
  let data := replicate 4 x41 ++ blit "hkaSkeleton" ++ replicate 49 x00 in
  let info := HKXInfo_init (lit "a.hkx") (lit "a.hkx") 64 (ReadData data) in
  valid info = true ∧
  havok_version_str info = lit "unknown (headerless, classes detected)" ∧
  detected_classes info = [lit "hkaSkeleton"].
Proof.
  intros data info.
  assert (Hlen : 64 <= len data) by (vm_compute; discriminate).
  assert (Hmagic : slice data 0 8 ≠ HKX_MAGIC_LE) by (vm_compute; discriminate).
  assert (Hmarker : ¬ has_marker data) by (intros [H|H]; vm_compute in H; discriminate).
  assert (Hoff : ¬ magic_at_aligned_offset data)
    by (apply (bool_decide_unpack _); vm_compute; exact I).
  assert (Hsig : some_signature data)
    by (apply (bool_decide_unpack _); vm_compute; exact I).
  destruct (headerless_by_signature (lit "a.hkx") (lit "a.hkx") 64 data
              Hlen Hmagic Hmarker Hoff) as [Hyes _].
  destruct (Hyes Hsig) as (Hv & _ & Hl & Hd).
  subst info. split; [exact Hv|]. split; [exact Hl|]. rewrite Hd. vm_compute. reflexivity.
Defined.

(** ** What the record says about the content *)

Lemma decode_ascii_inj (bs1 bs2 : bytes) : decode_ascii bs1 = decode_ascii bs2 → bs1 = bs2.
Proof.
  revert bs2. induction bs1 as [|c1 bs1 IH]; intros [|c2 bs2]; simpl; try done.
  intros [= Hc Hrest]. f_equal; [|by apply IH].
  pose proof (Byte.of_to_N c1) as H1. pose proof (Byte.of_to_N c2) as H2.
  rewrite Hc in H1. congruence.
Qed.

Lemma signatures_NoDup : NoDup ER_CLASSNAME_SIGNATURES.
Proof. apply (bool_decide_unpack _). vm_compute. exact I. Qed.

Lemma signatures_in_NoDup data : NoDup (signatures_in data).
Proof.
  unfold signatures_in. apply NoDup_fmap_2_strong.
  - intros x y _ _. apply decode_ascii_inj.
  - apply NoDup_filter, signatures_NoDup.
Qed.

(** X6. Whenever the scan for signatures runs (at least 64 bytes, and
    the magic constant at offset 0, or the marker, or no magic constant
    at an aligned offset), the detected classes are exactly the names of
    the signatures that occur in the data, each once and in the order of
    the signature list, not in the order of occurrence. *)
Theorem detected_classes_in_list_order (path name : str) (size : N) (data : bytes) :
  64 <= len data →
  slice data 0 8 = HKX_MAGIC_LE ∨ has_marker data ∨ ¬ magic_at_aligned_offset data →
  let info := HKXInfo_init path name size (ReadData data) in
  detected_classes info = signatures_in data ∧
  NoDup (detected_classes info) ∧
  (length (detected_classes info) ≤ 7)%nat.
Proof.
  intros Hlen Hpath info.
  assert (Hdc : detected_classes info = signatures_in data).
  { subst info.
    destruct (decide (slice data 0 8 = HKX_MAGIC_LE)) as [Hmagic|Hmagic].
    { destruct (standard_shape path name size data Hlen Hmagic)
        as (raw & cvs & _ & _ & _ & _ & ->).
      by rewrite scan_classes_detected. }
    destruct (decide (has_marker data)) as [Hmarker|Hmarker].
    { rewrite (marker_shape path name size data Hlen Hmarker), scan_classes_detected.
      by case_bool_decide. }
    destruct Hpath as [?|[?|Hoff]]; try done.
    destruct (no_marker_shape path name size data Hlen Hmagic Hmarker)
      as [(? & _)|[(_ & Hsig & ->)|(_ & Hsig & ->)]]; [done| |].
    - simpl. by rewrite scan_classes_detected.
    - apply signatures_in_nil in Hsig. by rewrite Hsig. }
  rewrite Hdc. split; [done|]. split; [apply signatures_in_NoDup|].
  unfold signatures_in. rewrite length_fmap.
  etrans; [apply length_filter|]. reflexivity.
Qed.

Lemma detected_classes_in_list_order_witness :
  let data := HKX_MAGIC_LE ++ blit "hkaSkeleton" ++ blit "hkaAnimationContainer"
              ++ replicate 24 x00 in
  detected_classes (HKXInfo_init (lit "a.hkx") (lit "a.hkx") 64 (ReadData data))
  = [lit "hkaAnimationContainer"; lit "hkaSkeleton"].
Proof.
  intros data.
  assert (Hlen : 64 <= len data) by (vm_compute; discriminate).
  assert (Hpath : slice data 0 8 = HKX_MAGIC_LE ∨ has_marker data
                  ∨ ¬ magic_at_aligned_offset data) by (left; reflexivity).
  destruct (detected_classes_in_list_order (lit "a.hkx") (lit "a.hkx") 64 data Hlen Hpath)
    as (Hdc & _).
  rewrite Hdc. vm_compute. reflexivity.
Defined.

(** The flags and the compression type of every record agree with its
    list of detected classes. *)
Lemma init_scan_consistent path name size r :
  let info := HKXInfo_init path name size r in
  has_binding info = false ∧
  has_skeleton info = bool_decide (lit "hkaSkeleton" ∈ detected_classes info) ∧
  has_animation info =
    bool_decide (lit "hkaSplineCompressedAnimation" ∈ detected_classes info
                 ∨ lit "hkaInterleavedUncompressedAnimation" ∈ detected_classes info
                 ∨ lit "hkaAnimationBinding" ∈ detected_classes info) ∧
  compression_type info =
    (if bool_decide (lit "hkaInterleavedUncompressedAnimation" ∈ detected_classes info)
     then lit "interleaved"
     else if bool_decide (lit "hkaSplineCompressedAnimation" ∈ detected_classes info)
          then lit "spline" else lit "unknown").
Proof.
  intros info. subst info.
  destruct r as [e|data]; [vm_compute; repeat split|].
  destruct (decide (len data < 64)) as [Hsmall|Hlen].
  { rewrite too_small_shape by done. vm_compute. repeat split. }
  assert (Hlen' : 64 <= len data) by lia.
  destruct (decide (slice data 0 8 = HKX_MAGIC_LE)) as [Hmagic|Hmagic].
  { destruct (standard_shape path name size data Hlen' Hmagic)
      as (raw & cvs & _ & _ & _ & _ & ->).
    by apply scan_classes_consistent. }
  destruct (decide (has_marker data)) as [Hmarker|Hmarker].
  { rewrite (marker_shape path name size data Hlen' Hmarker).
    case_bool_decide; by apply scan_classes_consistent. }
  destruct (no_marker_shape path name size data Hlen' Hmagic Hmarker)
    as [(_ & ->)|[(_ & _ & ->)|(_ & _ & ->)]].
  - vm_compute. repeat split.
  - exact (scan_classes_consistent (HKXInfo_defaults path name size) data
             eq_refl eq_refl eq_refl eq_refl eq_refl).
  - vm_compute. repeat split.
Qed.

(** X7. No record ever has [has_binding] set: the only signature whose
    name contains [Binding], [hkaAnimationBinding], also contains
    [Animation] and is taken by the animation branch of the scan. *)
Theorem has_binding_never_set (path name : str) (size : N) (r : read_result) :
  has_binding (HKXInfo_init path name size r) = false.
Proof. apply init_scan_consistent. Qed.

(** X8. In every record the two other flags can be read off the list of
    detected classes: [has_skeleton] holds exactly when [hkaSkeleton]
    was detected (the skeleton mapper does not count), [has_animation]
    exactly when the spline, the interleaved or the binding signature
    was detected (the animation container does not count). *)
Theorem flags_follow_detected_classes (path name : str) (size : N) (r : read_result) :
  let info := HKXInfo_init path name size r in
  (has_skeleton info = true ↔ lit "hkaSkeleton" ∈ detected_classes info) ∧
  (has_animation info = true ↔
     lit "hkaSplineCompressedAnimation" ∈ detected_classes info
     ∨ lit "hkaInterleavedUncompressedAnimation" ∈ detected_classes info
     ∨ lit "hkaAnimationBinding" ∈ detected_classes info).
Proof.
  intros info.
  destruct (init_scan_consistent path name size r) as (_ & Hs & Ha & _).
  fold info in Hs, Ha. rewrite Hs, Ha. split; apply bool_decide_eq_true.
Qed.

(** X9. In every record the compression type is [interleaved] when the
    interleaved signature was detected, else [spline] when the spline
    signature was detected, else [unknown]. *)
Theorem compression_follows_detected_classes (path name : str) (size : N) (r : read_result) :
  let info := HKXInfo_init path name size r in
  compression_type info =
    (if bool_decide (lit "hkaInterleavedUncompressedAnimation" ∈ detected_classes info)
     then lit "interleaved"
     else if bool_decide (lit "hkaSplineCompressedAnimation" ∈ detected_classes info)
          then lit "spline" else lit "unknown").
Proof. apply init_scan_consistent. Qed.

(** ** The header attributes *)

Lemma plausible_sections_bound data : (plausible_sections data < 100)%N.
Proof.
  unfold plausible_sections.
  repeat (case_bool_decide; cbn [andb]); lia.
Qed.

(** X10. In every record the content version string is shorter than 64
    characters and holds no NUL character: it is either empty or the
    text in front of the first NUL of a 64-byte window. *)
Theorem content_version_string_text (path name : str) (size : N) (r : read_result) :
  let info := HKXInfo_init path name size r in
  (length (content_version_string info) < 64)%nat ∧
  0%N ∉ content_version_string info.
Proof.
  intros info. subst info.
  assert (Hnil : (length (@nil N) < 64)%nat ∧ 0%N ∉ @nil N)
    by (split; [simpl; lia|apply not_elem_of_nil]).
  destruct r as [e|data]; [exact Hnil|].
  destruct (decide (len data < 64)) as [Hsmall|Hlen].
  { rewrite too_small_shape by done. exact Hnil. }
  assert (Hlen' : 64 <= len data) by lia.
  destruct (decide (slice data 0 8 = HKX_MAGIC_LE)) as [Hmagic|Hmagic].
  { destruct (standard_shape path name size data Hlen' Hmagic)
      as (raw & cvs & _ & _ & Hl & Hn & ->).
    match goal with |- context [_scan_classes ?s data] =>
      destruct (scan_classes_header s data)
        as (_ & _ & _ & _ & _ & _ & _ & _ & _ & _ & ->)
    end.
    done. }
  destruct (decide (has_marker data)) as [Hmarker|Hmarker].
  { rewrite (marker_shape path name size data Hlen' Hmarker).
    match goal with |- context [_scan_classes ?s data] =>
      destruct (scan_classes_header s data)
        as (_ & _ & _ & _ & _ & _ & _ & _ & _ & _ & ->)
    end.
    case_bool_decide as Hend; [|exact Hnil].
    apply (nul_terminated_text data 0 (find_in [x00] data 0 64)); [lia|lia|reflexivity]. }
  destruct (no_marker_shape path name size data Hlen' Hmagic Hmarker)
    as [(_ & ->)|[(_ & _ & ->)|(_ & _ & ->)]]; try exact Hnil.
  simpl.
  destruct (scan_classes_header (HKXInfo_defaults path name size) data)
    as (_ & _ & _ & _ & _ & _ & _ & _ & _ & _ & ->).
  exact Hnil.
Qed.

Lemma standard_header_fields path name size data :
  64 <= len data → slice data 0 8 = HKX_MAGIC_LE →
  let info := HKXInfo_init path name size (ReadData data) in
  user_tag info = u32_at data 0x08 ∧
  num_sections info = plausible_sections data ∧
  havok_version_str info = spec_version_label data ∧
  (havok_version_raw info < 2 ^ 32)%N ∧
  (havok_version_raw info = 0%N ∧ HAVOK_VERSIONS !! u32_at data 0x0C = None
     ∧ first_known_version data [0x10; 0x14; 0x28; 0x2C] = None
   ∨ HAVOK_VERSIONS !! havok_version_raw info = Some (spec_version_label data)).
Proof.
  intros Hlen Hmagic info. subst info.
  destruct (standard_shape path name size data Hlen Hmagic)
    as (raw & cvs & Hbound & Hraw & _ & _ & ->).
  match goal with |- context [_scan_classes ?s data] =>
    destruct (scan_classes_header s data)
      as (_ & _ & _ & _ & _ & _ & -> & -> & -> & -> & _)
  end.
  done.
Qed.

(** X11. In every record the section count is below 100 and the user
    tag and the raw version are below 2^32. *)
Theorem header_numbers_bounded (path name : str) (size : N) (r : read_result) :
  let info := HKXInfo_init path name size r in
  (num_sections info < 100)%N ∧ (user_tag info < 2 ^ 32)%N ∧
  (havok_version_raw info < 2 ^ 32)%N.
Proof.
  intros info. subst info.
  destruct r as [e|data]; [simpl; lia|].
  destruct (decide (len data < 64 ∨ slice data 0 8 ≠ HKX_MAGIC_LE)) as [Hcase|Hstd].
  - destruct (header_fields_off_standard path name size data Hcase) as (_ & -> & -> & ->).
    lia.
  - assert (Hlen : 64 <= len data) by (destruct (decide (len data < 64)); [tauto|lia]).
    assert (Hmagic : slice data 0 8 = HKX_MAGIC_LE)
      by (destruct (decide (slice data 0 8 = HKX_MAGIC_LE)); [done|tauto]).
    destruct (standard_header_fields path name size data Hlen Hmagic)
      as (-> & -> & _ & Hraw & _).
    split; [apply plausible_sections_bound|]. split; [apply u32_at_bound|exact Hraw].
Qed.

(** X12. On a standard-header buffer the user tag is the little-endian
    value at offset 0x08 and the section count is the first of the
    values at 0x14 and 0x18 that lies strictly between 0 and 100, or 0
    when neither does. *)
Theorem standard_header_tag_and_sections (path name : str) (size : N) (data : bytes) :
  64 <= len data → slice data 0 8 = HKX_MAGIC_LE →
  let info := HKXInfo_init path name size (ReadData data) in
  user_tag info = u32_at data 0x08 ∧
  num_sections info = plausible_sections data.
Proof.
  intros Hlen Hmagic info.
  destruct (standard_header_fields path name size data Hlen Hmagic) as (Ht & Hn & _).
  split; assumption.
Qed.

Lemma standard_header_tag_and_sections_witness :
  let data := HKX_MAGIC_LE ++ [x2a; x00; x00; x00] ++ replicate 8 x00
              ++ [xff; xff; x00; x00] ++ [x03; x00; x00; x00] ++ replicate 36 x00 in
  let info := HKXInfo_init (lit "a.hkx") (lit "a.hkx") 64 (ReadData data) in
  user_tag info = 42%N ∧ num_sections info = 3%N.
Proof.
  intros data info.
  assert (Hlen : 64 <= len data) by (vm_compute; discriminate).
  assert (Hmagic : slice data 0 8 = HKX_MAGIC_LE) by reflexivity.
  destruct (standard_header_tag_and_sections (lit "a.hkx") (lit "a.hkx") 64 data Hlen Hmagic)
    as (Ht & Hn).
  subst info. rewrite Ht, Hn. split; vm_compute; reflexivity.
Defined.

(** X13. In every record a non-zero raw version is a key of the version
    table and the version label is its entry; on a standard-header
    buffer the raw version is zero exactly when the label is the
    [unknown (0x........)] one built from the value at 0x0C. *)
Theorem raw_version_matches_label (path name : str) (size : N) (r : read_result) :
  let info := HKXInfo_init path name size r in
  (havok_version_raw info ≠ 0%N →
   HAVOK_VERSIONS !! havok_version_raw info = Some (havok_version_str info)) ∧
  (∀ data, r = ReadData data → 64 <= len data → slice data 0 8 = HKX_MAGIC_LE →
   havok_version_raw info = 0%N →
   havok_version_str info
   = lit "unknown (0x" ++ format_08X (u32_at data 0x0C) ++ lit ")").
Proof.
  intros info. split.
  - subst info. destruct r as [e|data]; [done|].
    destruct (decide (len data < 64 ∨ slice data 0 8 ≠ HKX_MAGIC_LE)) as [Hcase|Hstd].
    + destruct (header_fields_off_standard path name size data Hcase) as (_ & -> & _). done.
    + assert (Hlen : 64 <= len data) by (destruct (decide (len data < 64)); [tauto|lia]).
      assert (Hmagic : slice data 0 8 = HKX_MAGIC_LE)
        by (destruct (decide (slice data 0 8 = HKX_MAGIC_LE)); [done|tauto]).
      destruct (standard_header_fields path name size data Hlen Hmagic)
        as (_ & _ & -> & _ & [(-> & _)|Hkey]); done.
  - intros data -> Hlen Hmagic Hzero. subst info.
    destruct (standard_header_fields path name size data Hlen Hmagic)
      as (_ & _ & -> & _ & [(_ & Hnone & Hprobe)|Hkey]).
    + unfold spec_version_label. fold (u32_at data 12).
      change (le_uint (slice data 12 16)) with (u32_at data 12).
      by rewrite Hnone, Hprobe.
    + rewrite Hzero, HAVOK_VERSIONS_zero in Hkey. discriminate.
Qed.

Lemma raw_version_matches_label_witness :
  let data := HKX_MAGIC_LE ++ replicate 4 x00 ++ [x00; x00; x00; x0b] ++ replicate 48 x00 in
  let info := HKXInfo_init (lit "a.hkx") (lit "a.hkx") 64 (ReadData data) in
  havok_version_raw info = 0x0B000000%N ∧
  HAVOK_VERSIONS !! havok_version_raw info = Some (havok_version_str info).
Proof.
  intros data info.
  assert (Hraw : havok_version_raw info = 0x0B000000%N) by (vm_compute; reflexivity).
  split; [exact Hraw|].
  apply (raw_version_matches_label (lit "a.hkx") (lit "a.hkx") 64 (ReadData data)).
  fold info. rewrite Hraw. discriminate.
Defined.

(** X14. On a buffer of at least 64 bytes that starts with the marker,
    the version label is decided by the content version string, the
    text in front of the first NUL of the first 64 bytes: hk2018 when
    it contains [2018], else hk2014 when it contains [2014], else
    hk2016 when it contains [2016], else [unknown]; it is [unknown]
    too when the first 64 bytes hold no NUL. *)
Theorem marker_version_label_choice (path name : str) (size : N) (data : bytes) :
  64 <= len data → has_marker data →
  let info := HKXInfo_init path name size (ReadData data) in
  let end_ := find_in [x00] data 0 64 in
  havok_version_str info =
    (if bool_decide (0 < end_)
     then marker_version_label (decode_ascii_replace (slice data 0 end_)) (lit "unknown")
     else lit "unknown").
Proof.
  intros Hlen Hmarker info end_. subst info.
  rewrite (marker_shape path name size data Hlen Hmarker).
  match goal with |- context [_scan_classes ?s data] =>
    destruct (scan_classes_header s data)
      as (_ & _ & _ & _ & _ & _ & _ & -> & _)
  end.
  fold end_. by case_bool_decide.
Qed.

Lemma marker_version_label_choice_witness :
  let data := blit "hk_2014.1.0-r1" ++ replicate 50 x00 in
  havok_version_str (HKXInfo_init (lit "a.hkx") (lit "a.hkx") 64 (ReadData data))
  = lit "hk2014 (Skyrim SE)".
Proof.
  intros data.
  assert (Hlen : 64 <= len data) by (vm_compute; discriminate).
  assert (Hmarker : has_marker data) by (left; reflexivity).
  rewrite (marker_version_label_choice (lit "a.hkx") (lit "a.hkx") 64 data Hlen Hmarker).
  vm_compute. reflexivity.
Defined.

(** ** The compatibility rules *)

(** The issue list in closed form: the three rules fire independently
    and in a fixed order. *)
Lemma check_cases info :
  check_skyrim_compatibility info =
  if negb (valid info) then [ISSUE_INVALID]
  else
    let fired :=
      (if contains (lit "2018") (havok_version_str info)
          || contains (lit "Elden Ring") (havok_version_str info)
       then [ISSUE_VERSION] else [])
      ++ (if bool_decide (compression_type info = lit "spline")
          then [ISSUE_COMPRESSION] else [])
      ++ (if bool_decide (endianness info = lit "big") then [ISSUE_ENDIAN] else []) in
    if nonempty fired then fired else [ISSUE_OK].
Proof.
  unfold check_skyrim_compatibility.
  destruct (valid info), (_ || _), (bool_decide (compression_type info = _)),
    (bool_decide (endianness info = _)); reflexivity.
Qed.

(** Decides membership of an issue constant in a list of issue constants. *)
Ltac issue_mem :=
  match goal with
  | H : _ ∈ _ |- _ => apply (bool_decide_pack _) in H; vm_compute in H; destruct H
  | H : _ = _ :> list (list N) |- _ => vm_compute in H; discriminate H
  | |- _ ∈ _ => apply (bool_decide_unpack _); vm_compute; exact I
  | |- _ = _ :> list (list N) => reflexivity
  end.

Ltac check_split info :=
  rewrite (check_cases info);
  destruct (valid info) eqn:Hvalid;
  destruct (contains (lit "2018") (havok_version_str info)) eqn:H2018;
  destruct (contains (lit "Elden Ring") (havok_version_str info)) eqn:HER;
  destruct (bool_decide (compression_type info = lit "spline")) eqn:Hspline;
  destruct (bool_decide (endianness info = lit "big")) eqn:Hbig;
  try apply bool_decide_eq_true in Hspline; try apply bool_decide_eq_false in Hspline;
  try apply bool_decide_eq_true in Hbig; try apply bool_decide_eq_false in Hbig;
  cbn [negb orb app nonempty].

Lemma issue_invalid_iff info :
  ISSUE_INVALID ∈ check_skyrim_compatibility info ↔ valid info = false.
Proof. check_split info; (split; [intros Hin|intros Heq]); try done; issue_mem. Qed.

Lemma issue_version_iff info :
  ISSUE_VERSION ∈ check_skyrim_compatibility info ↔
  valid info = true ∧ (contains (lit "2018") (havok_version_str info) = true
                       ∨ contains (lit "Elden Ring") (havok_version_str info) = true).
Proof.
  check_split info; (split; [intros Hin|intros [Hv [?|?]]]);
    try done; try (split; [done|by auto]); issue_mem.
Qed.

Lemma issue_compression_iff info :
  ISSUE_COMPRESSION ∈ check_skyrim_compatibility info ↔
  valid info = true ∧ compression_type info = lit "spline".
Proof. check_split info; (split; [intros Hin|intros [Hv ?]]); try done; issue_mem. Qed.

Lemma issue_endian_iff info :
  ISSUE_ENDIAN ∈ check_skyrim_compatibility info ↔
  valid info = true ∧ endianness info = lit "big".
Proof. check_split info; (split; [intros Hin|intros [Hv ?]]); try done; issue_mem. Qed.

Lemma issue_ok_iff info :
  ISSUE_OK ∈ check_skyrim_compatibility info ↔ check_skyrim_compatibility info = [ISSUE_OK].
Proof. check_split info; (split; [intros Hin|intros Heq]); try done; issue_mem. Qed.

Lemma check_length info :
  (1 ≤ length (check_skyrim_compatibility info) ≤ 3)%nat.
Proof. check_split info; simpl; lia. Qed.

(** X15. The rules of the compatibility check are independent: the
    list holds the INVALID issue exactly for an invalid record, and for
    a valid one the VERSION, COMPRESSION and ENDIAN issues exactly when
    the version label contains [2018] or [Elden Ring], the compression
    type is [spline], the endianness is [big]; the OK entry only ever
    stands alone; the list has between one and three entries. *)
Theorem compatibility_rules_independent (info : HKXInfo) :
  let issues := check_skyrim_compatibility info in
  (ISSUE_INVALID ∈ issues ↔ valid info = false) ∧
  (ISSUE_VERSION ∈ issues ↔
     valid info = true ∧ (contains (lit "2018") (havok_version_str info) = true
                          ∨ contains (lit "Elden Ring") (havok_version_str info) = true)) ∧
  (ISSUE_COMPRESSION ∈ issues ↔ valid info = true ∧ compression_type info = lit "spline") ∧
  (ISSUE_ENDIAN ∈ issues ↔ valid info = true ∧ endianness info = lit "big") ∧
  (ISSUE_OK ∈ issues ↔ issues = [ISSUE_OK]) ∧
  (1 ≤ length issues ≤ 3)%nat.
Proof.
  intros issues. subst issues.
  split; [apply issue_invalid_iff|]. split; [apply issue_version_iff|].
  split; [apply issue_compression_iff|]. split; [apply issue_endian_iff|].
  split; [apply issue_ok_iff|apply check_length].
Qed.

(** ** The OK filter of [main] and [verify_converted_hkx] *)

Lemma problem_issues_check info :
  problem_issues (check_skyrim_compatibility info)
  = (if bool_decide (check_skyrim_compatibility info = [ISSUE_OK])
     then [] else check_skyrim_compatibility info) ∧
  has_problems (check_skyrim_compatibility info)
  = negb (bool_decide (check_skyrim_compatibility info = [ISSUE_OK])).
Proof. check_split info; vm_compute; split; reflexivity. Qed.


(** X16. Dropping the entries that start with [OK] leaves nothing when
    the check found no issue and leaves the whole list otherwise: no
    issue message starts with [OK], and the OK entry never accompanies
    an issue. Accordingly a record has problems exactly when its list
    is not the single OK entry. *)
Theorem ok_filter_keeps_all_issues (info : HKXInfo) :
  let issues := check_skyrim_compatibility info in
  (issues = [ISSUE_OK] → problem_issues issues = [] ∧ has_problems issues = false) ∧
  (issues ≠ [ISSUE_OK] → problem_issues issues = issues ∧ has_problems issues = true).
Proof.
  intros issues. subst issues.
  destruct (problem_issues_check info) as [-> ->].
  split; intros H; [rewrite bool_decide_true by done|rewrite bool_decide_false by done];
    done.
Qed.

Lemma ok_filter_keeps_all_issues_witness :
  let info := HKXInfo_init (lit "a.hkx") (lit "a.hkx") 80
                (ReadData (HKX_MAGIC_LE ++ replicate 72 x00)) in
  problem_issues (check_skyrim_compatibility info) = [ISSUE_ENDIAN].
Proof.
  intros info.
  destruct (ok_filter_keeps_all_issues info) as [_ Hkeep].
  destruct Hkeep as [-> _]; [vm_compute; discriminate|].
  vm_compute. reflexivity.
Defined.

Lemma HKXInfo_of_cases f :
  (file_stat f = Raises ∧ HKXInfo_of f = Raises)
  ∨ ∃ size, file_stat f = Returns size ∧
            HKXInfo_of f
            = Returns (HKXInfo_init (file_path f) (file_name f) size (file_read f)).
Proof. unfold HKXInfo_of. destruct (file_stat f); [right; by eexists|by left]. Qed.

Lemma records_of_stat files infos : records_of files infos → ¬ some_stat_fails files.
Proof.
  unfold records_of, some_stat_fails. induction 1 as [|f info files infos Hf _ IH].
  - intros H. by apply Exists_nil in H.
  - rewrite Exists_cons. intros [Hfail|?]; [|done].
    unfold HKXInfo_of in Hf. rewrite Hfail in Hf. discriminate.
Qed.

Lemma ok_partition (infos : list HKXInfo) :
  (length (filter (λ info, check_skyrim_compatibility info = [ISSUE_OK]) infos)
   + length (filter (λ info, check_skyrim_compatibility info ≠ [ISSUE_OK]) infos))%nat
  = length infos.
Proof.
  induction infos as [|info infos IH]; [done|].
  rewrite !filter_cons.
  destruct (decide (check_skyrim_compatibility info = [ISSUE_OK])).
  - rewrite decide_False by (by intros H; apply H). simpl. lia.
  - rewrite decide_True by done. simpl. lia.
Qed.

(** The loop raises exactly when [stat()] fails on a file; otherwise it
    adds to the first counter the records that pass and to the second
    all others. *)
Lemma verify_loop_run files a b :
  match verify_loop a b files with
  | Raises => some_stat_fails files
  | Returns (ok_count, issue_count) =>
      ∃ infos, records_of files infos ∧
        ok_count = (a + length (filter (λ info, check_skyrim_compatibility info = [ISSUE_OK])
                                       infos))%nat ∧
        issue_count = (b + length (filter (λ info, check_skyrim_compatibility info ≠ [ISSUE_OK])
                                          infos))%nat
  end.
Proof.
  unfold some_stat_fails, records_of.
  revert a b. induction files as [|f files IH]; intros a b; cbn [verify_loop].
  - exists []. split; [constructor|]. simpl. lia.
  - destruct (HKXInfo_of_cases f) as [[Hfail ->]|(size & _ & Hf)]; [by apply Exists_cons_hd|].
    rewrite Hf. cbv zeta.
    set (info := HKXInfo_init _ _ _ _) in *.
    destruct (problem_issues_check info) as [_ ->].
    case_bool_decide as Hok; cbn [negb].
    + specialize (IH (a + 1)%nat b).
      destruct (verify_loop (a + 1) b files) as [[ok_count issue_count]|];
        [|by apply Exists_cons_tl].
      destruct IH as (infos & Hrec & -> & ->).
      exists (info :: infos). split; [by constructor|].
      rewrite !filter_cons, decide_True by done.
      rewrite decide_False by (by intros H; apply H). simpl. lia.
    + specialize (IH a (b + 1)%nat).
      destruct (verify_loop a (b + 1) files) as [[ok_count issue_count]|];
        [|by apply Exists_cons_tl].
      destruct IH as (infos & Hrec & -> & ->).
      exists (info :: infos). split; [by constructor|].
      rewrite !filter_cons, decide_False by done.
      rewrite decide_True by done. simpl. lia.
Qed.

(** X17. [verify_converted_hkx] raises exactly when listing the
    directory raises or [stat()] fails on one of the listed paths (a
    dangling symbolic link, say); it returns early exactly on an empty
    listing; otherwise it reports two counters that add up to the
    number of files: the first counts the files whose record passes the
    check with the single OK entry, the second all others (invalid
    records included). *)
Theorem verify_counts_partition (listing : outcome (list hkx_file)) :
  (verify_converted_hkx listing = Raises ↔
   listing = Raises ∨ ∃ files, listing = Returns files ∧ some_stat_fails files) ∧
  (verify_converted_hkx listing = Returns None ↔ listing = Returns []) ∧
  match verify_converted_hkx listing with
  | Returns (Some (ok_count, issue_count)) =>
      ∃ files infos,
        listing = Returns files ∧ files ≠ [] ∧ records_of files infos ∧
        ok_count = length (filter (λ info, check_skyrim_compatibility info = [ISSUE_OK])
                                  infos) ∧
        issue_count = length (filter (λ info, check_skyrim_compatibility info ≠ [ISSUE_OK])
                                     infos) ∧
        (ok_count + issue_count)%nat = length files
  | _ => True
  end.
Proof.
  destruct listing as [files|]; cbn [verify_converted_hkx].
  2: { split; [split; [by left|done]|]. split; [split; discriminate|done]. }
  destruct files as [|f0 files0]; cbn [nonempty negb].
  { split; [split; [discriminate|]|].
    - intros [?|(files & [= <-] & Hfail)]; [done|].
      unfold some_stat_fails in Hfail. by apply Exists_nil in Hfail.
    - split; [done|done]. }
  set (files := f0 :: files0).
  assert (Hne : files ≠ []) by done. clearbody files.
  pose proof (verify_loop_run files 0 0) as Hrun.
  destruct (verify_loop 0 0 files) as [[ok_count issue_count]|].
  - destruct Hrun as (infos & Hrec & Hok & Hissue). simpl in Hok, Hissue.
    split; [split; [discriminate|]|].
    { intros [?|(files' & [= <-] & Hfail)]; [done|].
      by apply (records_of_stat _ _ Hrec) in Hfail. }
    split; [split; [discriminate|by intros [= ->]]|].
    exists files, infos. repeat split; try done.
    rewrite Hok, Hissue, ok_partition. symmetry. by eapply Forall2_length.
  - split; [split; [intros _; right; by exists files|done]|].
    split; [split; [discriminate|by intros [= ->]]|done].
Qed.

Example verify_two_files :
  verify_converted_hkx
    (Returns
       [ mk_hkx_file (lit "a.hkx") (lit "a.hkx") (Returns 40%N)
           (ReadData (replicate 40 x00));
         mk_hkx_file (lit "b.hkx") (lit "b.hkx") (Returns 64%N)
           (ReadData (replicate 4 x41 ++ blit "hkaSkeleton" ++ replicate 49 x00)) ])
  = Returns (Some (1%nat, 1%nat)).
Proof. vm_compute. reflexivity. Qed.

Example verify_dangling_link :
  verify_converted_hkx
    (Returns
       [ mk_hkx_file (lit "a.hkx") (lit "a.hkx") (Returns 40%N)
           (ReadData (replicate 40 x00));
         mk_hkx_file (lit "b.hkx") (lit "b.hkx") Raises
           (ReadError (lit "No such file or directory")) ])
  = Raises.
Proof. vm_compute. reflexivity. Qed.



(** ** The frequency tables, key by key *)

Lemma count_up_lookup (d : gmap str nat) (k k' : str) :
  count_up k d !! k' = if decide (k = k') then Some (default 0 (d !! k) + 1)%nat else d !! k'.
Proof. unfold count_up. apply lookup_insert. Qed.

Lemma count_fold_lookup (p : HKXInfo → bool) (f : HKXInfo → str)
    (results : list HKXInfo) (d : gmap str nat) (k : str) :
  foldl (λ counts r, if p r then count_up (f r) counts else counts) d results !! k
  = (let n := length (filter (λ r, p r = true ∧ f r = k) results) in
     if bool_decide (n = 0%nat) then d !! k else Some (default 0 (d !! k) + n)%nat).
Proof.
  revert d. induction results as [|r results IH]; intros d; [done|].
  cbn [foldl]. rewrite IH, filter_cons. cbv zeta.
  destruct (p r) eqn:Hp.
  - rewrite count_up_lookup. destruct (decide (f r = k)) as [Hk|Hk].
    + rewrite decide_True by done. rewrite Hk. cbn [length default].
      rewrite (bool_decide_false (S _ = 0%nat)) by done.
      unfold id. case_bool_decide as Hn; [rewrite Hn|]; f_equal; lia.
    + rewrite decide_False by tauto. reflexivity.
  - rewrite decide_False by (intros [? _]; done). reflexivity.
Qed.

(** X19. The two frequency tables of the summary count what they are
    keyed by: the compression table maps a compression type to the
    number of records with that type, the version table maps a version
    label to the number of valid records with that label, and a key
    that no such record has is absent. *)
Theorem frequency_tables_count (results : list HKXInfo) (s : Summary) (k : str) :
  print_results_summary results = Some s →
  compression_counts s !! k
  = (let n := occurrences (λ r, compression_type r = k) results in
     if bool_decide (n = 0%nat) then None else Some n) ∧
  version_counts s !! k
  = (let n := occurrences (λ r, valid r = true ∧ havok_version_str r = k) results in
     if bool_decide (n = 0%nat) then None else Some n).
Proof.
  unfold print_results_summary. destruct (negb (nonempty results)); [done|].
  intros [= <-]. cbn [compression_counts version_counts]. unfold occurrences. split.
  - pose proof (count_fold_lookup (λ _, true) compression_type results ∅ k) as Hc.
    cbv beta iota zeta in Hc. rewrite Hc, lookup_empty. cbv zeta.
    rewrite (list_filter_iff (λ r, true = true ∧ compression_type r = k)
                             (λ r, compression_type r = k)) by (intros r; tauto).
    by case_bool_decide.
  - rewrite count_fold_lookup, lookup_empty. cbv zeta. by case_bool_decide.
Qed.

Lemma frequency_tables_count_witness :
  let results :=
    [ HKXInfo_init (lit "a.hkx") (lit "a.hkx") 40 (ReadData (replicate 40 x00));
      HKXInfo_init (lit "b.hkx") (lit "b.hkx") 64
        (ReadData (HKX_MAGIC_LE ++ replicate 56 x00)) ] in
  ∃ s, print_results_summary results = Some s ∧
       compression_counts s !! lit "unknown" = Some 2%nat ∧
       version_counts s !! lit "unknown" = None ∧
       version_counts s !! lit "unknown (0x00000000)" = Some 1%nat.
Proof.
  intros results. eexists. split; [reflexivity|].
  match goal with |- context [compression_counts ?s] =>
    pose proof (frequency_tables_count results s) as H
  end.
  split; [|split].
  - destruct (H (lit "unknown") eq_refl) as [-> _]. vm_compute. reflexivity.
  - destruct (H (lit "unknown") eq_refl) as [_ ->]. vm_compute. reflexivity.
  - destruct (H (lit "unknown (0x00000000)") eq_refl) as [_ ->]. vm_compute. reflexivity.
Defined.

(** ** From a target path to the summary *)

(** The loop raises exactly when [stat()] fails on a file; otherwise it
    appends one record per file, in order. *)
Lemma analyze_loop_run files results :
  match analyze_loop results files with
  | Raises => some_stat_fails files
  | Returns results' => ∃ infos, results' = results ++ infos ∧ records_of files infos
  end.
Proof.
  unfold some_stat_fails, records_of.
  revert results. induction files as [|f files IH]; intros results; cbn [analyze_loop].
  - exists []. split; [by rewrite app_nil_r|constructor].
  - destruct (HKXInfo_of_cases f) as [[Hfail ->]|(size & _ & Hf)]; [by apply Exists_cons_hd|].
    rewrite Hf. set (info := HKXInfo_init _ _ _ _) in *.
    specialize (IH (results ++ [info])).
    destruct (analyze_loop (results ++ [info]) files) as [results'|];
      [|by apply Exists_cons_tl].
    destruct IH as (infos & -> & Hrec).
    exists (info :: infos). split; [by rewrite <-app_assoc|by constructor].
Qed.

Lemma analyze_path_loop target_path :
  target_path ≠ TargetUnreadable →
  analyze_path target_path = analyze_loop [] (target_files target_path).
Proof.
  intros Hok. destruct target_path as [f|hkx_files| |].
  - cbn. by destruct (HKXInfo_of f).
  - cbn. by destruct hkx_files.
  - reflexivity.
  - done.
Qed.

Lemma records_no_binding files infos :
  records_of files infos → count_if has_binding infos = 0%nat.
Proof.
  unfold records_of. induction 1 as [|f info files infos Hf _ IH]; [done|].
  rewrite count_if_cons, IH.
  destruct (HKXInfo_of_cases f) as [[_ Hr]|(size & _ & Hr)]; rewrite Hr in Hf; [done|].
  injection Hf as <-.
  destruct (init_scan_consistent (file_path f) (file_name f) size (file_read f)) as [-> _].
  done.
Qed.

(** X20. [analyze_path] raises exactly when classifying or listing the
    target raises or [stat()] fails on one of its files (a dangling
    symbolic link, say). Otherwise it gives one record per file, in the
    order of the files; the summary is then computed exactly when there
    is a file, its total is the number of files, and its [with_binding]
    counter is 0 whatever the files hold. *)
Theorem analyzed_batch_summary (target_path : target) :
  (analyze_path target_path = Raises ↔
   target_path = TargetUnreadable ∨ some_stat_fails (target_files target_path)) ∧
  match analyze_path target_path with
  | Raises => True
  | Returns results =>
      records_of (target_files target_path) results ∧
      match print_results_summary results with
      | None => target_files target_path = []
      | Some s =>
          target_files target_path ≠ [] ∧
          total s = length (target_files target_path) ∧
          with_binding s = 0%nat
      end
  end.
Proof.
  assert (Hcase : target_path = TargetUnreadable ∨ target_path ≠ TargetUnreadable)
    by (destruct target_path; ((by left) || (by right))).
  destruct Hcase as [->|Hok].
  { cbn. split; [split; [by left|done]|done]. }
  rewrite (analyze_path_loop _ Hok).
  pose proof (analyze_loop_run (target_files target_path) []) as Hrun.
  destruct (analyze_loop [] (target_files target_path)) as [results|].
  - destruct Hrun as (infos & -> & Hrec). cbn [app].
    split; [split; [discriminate|]|].
    { intros [?|Hfail]; [done|]. by apply (records_of_stat _ _ Hrec) in Hfail. }
    split; [exact Hrec|].
    pose proof (Forall2_length _ _ _ Hrec) as Hlen.
    unfold print_results_summary.
    destruct infos as [|info infos]; cbn [nonempty negb].
    + by destruct (target_files target_path).
    + cbn [total with_binding]. split; [by destruct (target_files target_path)|].
      split; [done|]. by eapply records_no_binding.
  - split; [|done]. split; [by right|done].
Qed.

Example analyze_dangling_link :
  analyze_path
    (TargetDir
       [ mk_hkx_file (lit "a.hkx") (lit "a.hkx") (Returns 40%N)
           (ReadData (replicate 40 x00));
         mk_hkx_file (lit "b.hkx") (lit "b.hkx") Raises
           (ReadError (lit "No such file or directory")) ])
  = Raises.
Proof. reflexivity. Qed.

Example analyze_unreadable_file :
  analyze_path
    (TargetFile (mk_hkx_file (lit "a.hkx") (lit "a.hkx") (Returns 40%N)
                   (ReadError (lit "Permission denied"))))
  = Returns [HKXInfo_init (lit "a.hkx") (lit "a.hkx") 40
               (ReadError (lit "Permission denied"))].
Proof. reflexivity. Qed.

(** ** Analysis followed by the compatibility check *)

Lemma standard_header_endian path name size data :
  64 <= len data → slice data 0 8 = HKX_MAGIC_LE →
  endianness (HKXInfo_init path name size (ReadData data)) = endian_label data.
Proof.
  intros Hlen Hmagic.
  destruct (standard_shape path name size data Hlen Hmagic)
    as (raw & cvs & _ & _ & _ & _ & ->).
  match goal with |- context [_scan_classes ?s data] =>
    destruct (scan_classes_header s data) as (_ & _ & _ & _ & _ & -> & _)
  end.
  reflexivity.
Qed.

Lemma endian_label_big data :
  (0x11 < length data)%nat →
  endian_label data = lit "big" ↔ data !! 0x11%nat = Some x00.
Proof.
  intros Hlen. unfold endian_label.
  destruct (lookup_lt_is_Some_2 data 0x11%nat Hlen) as [c ->].
  case_bool_decide as Hc.
  - apply to_N_zero in Hc as ->. done.
  - split; [discriminate|]. intros [= ->]. by destruct Hc.
Qed.

(** X21. For the bytes read from a file, the compatibility check
    reports the ENDIAN issue exactly when there are at least 64 bytes,
    they start with the magic constant and the byte at offset 0x11 is
    zero; a file recognised by its marker, by a later magic constant or
    by a signature never gets it. *)
Theorem endian_issue_iff_zero_flag (path name : str) (size : N) (data : bytes) :
  ISSUE_ENDIAN ∈ check_skyrim_compatibility (HKXInfo_init path name size (ReadData data)) ↔
  64 <= len data ∧ slice data 0 8 = HKX_MAGIC_LE ∧ data !! 0x11%nat = Some x00.
Proof.
  rewrite issue_endian_iff.
  destruct (decide (len data < 64 ∨ slice data 0 8 ≠ HKX_MAGIC_LE)) as [Hcase|Hstd].
  - destruct (header_fields_off_standard path name size data Hcase) as (-> & _).
    split; [intros [_ Heq]; vm_compute in Heq; discriminate|].
    intros (? & ? & _). destruct Hcase; [lia|done].
  - assert (Hlen : 64 <= len data) by (destruct (decide (len data < 64)); [tauto|lia]).
    assert (Hmagic : slice data 0 8 = HKX_MAGIC_LE)
      by (destruct (decide (slice data 0 8 = HKX_MAGIC_LE)); [done|tauto]).
    rewrite standard_header_endian by done.
    destruct (parse_standard_valid path name size data Hlen Hmagic) as [-> _].
    rewrite endian_label_big by (unfold len in Hlen; lia).
    tauto.
Qed.

Lemma detected_classes_valid path name size r :
  detected_classes (HKXInfo_init path name size r) ≠ [] →
  valid (HKXInfo_init path name size r) = true.
Proof.
  intros Hdc. destruct (valid _) eqn:Hv; [done|].
  destruct (init_invalid_shape path name size r Hv) as [msg Heq].
  rewrite Heq in Hdc. by destruct Hdc.
Qed.

(** X22. The compatibility check reports the COMPRESSION issue exactly
    for the records in which the spline signature was detected and the
    interleaved one was not. *)
Theorem compression_issue_iff_spline_only (path name : str) (size : N) (r : read_result) :
  let info := HKXInfo_init path name size r in
  ISSUE_COMPRESSION ∈ check_skyrim_compatibility info ↔
  lit "hkaSplineCompressedAnimation" ∈ detected_classes info ∧
  lit "hkaInterleavedUncompressedAnimation" ∉ detected_classes info.
Proof.
  intros info. rewrite issue_compression_iff.
  destruct (init_scan_consistent path name size r) as (_ & _ & _ & Hc).
  fold info in Hc. rewrite Hc.
  case_bool_decide as Hinter; [|case_bool_decide as Hspline].
  - split; [intros [_ Heq]; vm_compute in Heq; discriminate|tauto].
  - split; [tauto|]. intros _. split; [|done].
    apply detected_classes_valid. fold info. intros Hnil. rewrite Hnil in Hspline.
    by apply elem_of_nil in Hspline.
  - split; [intros [_ Heq]; vm_compute in Heq; discriminate|tauto].
Qed.
